(** * Offline cache manager (OfflineCacheManager)

    A shallow embedding of the [OfflineCacheManager] class: the codec
    helpers ([compressData], [encryptData] and their inverses), the
    in-memory index (a JavaScript [Map], kept here in insertion order),
    the blob files and the index snapshot on disk, and the public
    operations [set], [get], [has], [delete], [cleanupExpired],
    [cleanupOversized], [cleanup], [clear] and [getStats].

    Conventions.
    - JavaScript strings are [string]s holding their UTF-8 bytes, so
      [Buffer.byteLength(s, 'utf8')] is the length of the string.
    - Numbers that the class handles (sizes, timestamps, counters) are
      integers and are kept in [Z].
    - [Date.now()] is an argument [now] of every operation; one operation
      sees one clock value.
    - Node built-ins ([crypto], [zlib], [JSON]) are the fields of a
      [Runtime] record.  A built-in that throws returns [None].
    - [console] output is not modelled, with one exception: a template
      literal that converts a key to a string can throw
      ([templateThrows]).  Inside a [try] block this sends the method to
      its [catch] handler, and [set], [get] and [delete] are modelled
      with it.  The [catch] handlers of the two sweeps and of [clear]
      print [metadata.key] the same way, outside any [try]: a call in
      which that conversion throws ends with an exception, and the
      definitions of the sweeps and of [clear] describe the calls that
      return. *)

From Stdlib Require Import ZArith Lia.
From stdpp Require Import base option list sorting gmap strings pretty.

Set Warnings "-register-all".

Local Open Scope Z_scope.
Local Open Scope string_scope.
Local Open Scope list_scope.

(** ** JavaScript values handled by the cache *)

Inductive jsval : Type :=
| JUndefined
| JNull
| JBool (b : bool)
| JNum (n : Z)
| JStr (s : string)
| JArr (items : list jsval)
| JObj (fields : list (string * jsval)).

(** [typeof v] *)
Definition typeof (v : jsval) : string :=
  match v with
  | JUndefined => "undefined"
  | JNull => "object"
  | JBool _ => "boolean"
  | JNum _ => "number"
  | JStr _ => "string"
  | JArr _ => "object"
  | JObj _ => "object"
  end.

(** [`${v}`] throws a [TypeError]: the string conversion of a template
    literal.  Primitives always convert.  An array converts by joining
    the conversions of its elements ([null] and [undefined] give the
    empty string).  A plain object converts through the inherited
    [toString], unless it has an own property of that name: the values
    of [jsval] are not callable, so the conversion falls through to
    [valueOf], which is either not callable as well or returns the
    object itself, and throws. *)
Fixpoint templateThrows (v : jsval) : bool :=
  match v with
  | JArr items => existsb templateThrows items
  | JObj fields => existsb (fun f => String.eqb f.1 "toString") fields
  | _ => false
  end.

(** Outcome of an expression that may throw. *)
Inductive completion (A : Type) : Type :=
| Normal (a : A)
| Throw.
Arguments Normal {A} a.
Arguments Throw {A}.

(** ** Node built-ins *)

Record Runtime : Type := {
  (** [crypto.createHash('md5').update(s).digest('hex')] *)
  md5_hex : string -> string;
  (** [zlib.gzipSync(s).toString('base64')] *)
  gzip_base64 : string -> option string;
  (** [zlib.gunzipSync(Buffer.from(s, 'base64')).toString()] *)
  gunzip_base64 : string -> option string;
  (** [createCipher('aes192', key)], [update(s, 'utf8', 'hex') + final('hex')] *)
  cipher_hex : string -> string -> option string;
  (** [createDecipher('aes192', key)], [update(s, 'hex', 'utf8') + final('utf8')] *)
  decipher_utf8 : string -> string -> option string;
  (** [JSON.stringify(v)]; [None] when it throws or yields [undefined] *)
  JSON_stringify : jsval -> option string;
  (** [JSON.parse(s)]; [None] when it throws *)
  JSON_parse : string -> option jsval
}.

(** The contracts of zlib and of the cipher: what was produced by the
    forward transform is accepted by the backward one and gives the input
    back. *)
Definition gunzip_inverts_gzip (rt : Runtime) : Prop :=
  forall x y, gzip_base64 rt x = Some y -> gunzip_base64 rt y = Some x.

Definition decipher_inverts_cipher (rt : Runtime) : Prop :=
  forall k x y, cipher_hex rt k x = Some y -> decipher_utf8 rt k y = Some x.

(** ** Configuration *)

Record Config : Type := {
  cacheDir : string;
  maxCacheSize : Z;
  maxCacheAge : Z;
  compressionEnabled : bool;
  encryptionEnabled : bool;
  encryptionKey : string
}.

(** The configuration the constructor installs.  The encryption key is
    [process.env.CACHE_ENCRYPTION_KEY || 'default-key-change-me']: an
    unset variable and an empty one both give the default. *)
Definition defaultConfig (envKey : option string) : Config :=
  {| cacheDir := "./cache";
     maxCacheSize := 50 * 1024 * 1024;
     maxCacheAge := 7 * 24 * 60 * 60 * 1000;
     compressionEnabled := true;
     encryptionEnabled := false;
     encryptionKey :=
       match envKey with
       | Some k => if decide (k = "") then "default-key-change-me" else k
       | None => "default-key-change-me"
       end |}.

(** ** Data model *)

(** The [metadata] object built by [set]. *)
Record Metadata : Type := {
  key : jsval;
  cacheKey : string;
  timestamp : Z;
  ttl : Z;
  expiresAt : Z;
  size : Z;
  isCompressed : bool;
  isEncrypted : bool;
  dataType : string;
  version : string
}.

(** The [cacheData] object written to a blob file. *)
Record CacheData : Type := {
  metadata : Metadata;
  data : string
}.

(** What [JSON.parse(fs.readFileSync(cacheFile, 'utf8'))] finds in a blob
    file: a [cacheData] object, or a content on which the read or the
    parse throws. *)
Inductive FileBody : Type :=
| Parsed (c : CacheData)
| Unparsable.

(** [this.cacheStats] *)
Record CacheStats : Type := {
  totalSize : Z;
  totalFiles : Z;
  hits : Z;
  misses : Z;
  lastCleanup : option Z
}.

(** [this.cacheIndex]: a [Map] from cache key to metadata.  A [Map]
    iterates in insertion order, which [cleanupOversized] observes through
    its stable sort, so the entries are kept as a list in that order. *)
Abbreviation Index := (list (string * Metadata)).

Fixpoint Map_get (k : string) (idx : Index) : option Metadata :=
  match idx with
  | [] => None
  | (k', v) :: rest => if decide (k' = k) then Some v else Map_get k rest
  end.

(** [Map.prototype.set]: an existing key keeps its position. *)
Fixpoint Map_set (k : string) (v : Metadata) (idx : Index) : Index :=
  match idx with
  | [] => [(k, v)]
  | (k', v') :: rest =>
      if decide (k' = k) then (k', v) :: rest else (k', v') :: Map_set k v rest
  end.

Definition Map_delete (k : string) (idx : Index) : Index :=
  filter (fun e => e.1 <> k) idx.

Definition Map_size (idx : Index) : Z := Z.of_nat (length idx).

(** The object [saveCacheIndex] serialises into [cache-index.json]. *)
Record IndexData : Type := {
  snap_version : string;
  snap_timestamp : Z;
  snap_index : Index;
  snap_stats : CacheStats
}.

(** The cache directory.  The blob of cache key [k] is the file
    [<cacheDir>/<k>.cache]; [blobs] is keyed by [k].  [readonlyBlobs] are
    the blobs on which [writeFileSync] and [unlinkSync] throw, and
    [indexReadonly] says the same of [cache-index.json]. *)
Record Disk : Type := {
  blobs : gmap string FileBody;
  indexFile : option IndexData;
  readonlyBlobs : gset string;
  indexReadonly : bool
}.

(** An instance of the class. *)
Record Manager : Type := {
  config : Config;
  cacheIndex : Index;
  cacheStats : CacheStats;
  disk : Disk
}.

Definition with_index (m : Manager) (idx : Index) : Manager :=
  {| config := config m; cacheIndex := idx;
     cacheStats := cacheStats m; disk := disk m |}.

Definition with_stats (m : Manager) (st : CacheStats) : Manager :=
  {| config := config m; cacheIndex := cacheIndex m;
     cacheStats := st; disk := disk m |}.

Definition with_disk (m : Manager) (d : Disk) : Manager :=
  {| config := config m; cacheIndex := cacheIndex m;
     cacheStats := cacheStats m; disk := d |}.

Definition with_blobs (d : Disk) (b : gmap string FileBody) : Disk :=
  {| blobs := b; indexFile := indexFile d;
     readonlyBlobs := readonlyBlobs d; indexReadonly := indexReadonly d |}.

Definition with_indexFile (d : Disk) (f : option IndexData) : Disk :=
  {| blobs := blobs d; indexFile := f;
     readonlyBlobs := readonlyBlobs d; indexReadonly := indexReadonly d |}.

(** ** The class *)

Module OfflineCacheManager.

(** [this.cacheStats.hits++] and [this.cacheStats.misses++] *)
Definition hit (m : Manager) : Manager :=
  let s := cacheStats m in
  with_stats m {| totalSize := totalSize s; totalFiles := totalFiles s;
                  hits := hits s + 1; misses := misses s;
                  lastCleanup := lastCleanup s |}.

Definition miss (m : Manager) : Manager :=
  let s := cacheStats m in
  with_stats m {| totalSize := totalSize s; totalFiles := totalFiles s;
                  hits := hits s; misses := misses s + 1;
                  lastCleanup := lastCleanup s |}.

Definition sumSizes (idx : Index) : Z :=
  foldr (fun e acc => size e.2 + acc) 0 idx.

(** [updateCacheStats()] *)
Definition updateCacheStats (m : Manager) : Manager :=
  let s := cacheStats m in
  with_stats m {| totalSize := sumSizes (cacheIndex m);
                  totalFiles := Map_size (cacheIndex m);
                  hits := hits s; misses := misses s;
                  lastCleanup := lastCleanup s |}.

(** [saveCacheIndex()]: a failing write is caught and logged. *)
Definition saveCacheIndex (now : Z) (m : Manager) : Manager :=
  if indexReadonly (disk m) then m
  else with_disk m (with_indexFile (disk m)
         (Some {| snap_version := "1.0"; snap_timestamp := now;
                  snap_index := cacheIndex m;
                  snap_stats := cacheStats m |})).

(** [loadCacheIndex()] on a readable snapshot, or on none. *)
Definition loadCacheIndex (m : Manager) : Manager :=
  match indexFile (disk m) with
  | Some snap => with_stats (with_index m (snap_index snap)) (snap_stats snap)
  | None => m
  end.

Definition zeroStats (cleanup : option Z) : CacheStats :=
  {| totalSize := 0; totalFiles := 0; hits := 0; misses := 0;
     lastCleanup := cleanup |}.

(** The constructor followed by [initializeCache()]. *)
Definition newManager (cfg : Config) (d : Disk) : Manager :=
  updateCacheStats
    (loadCacheIndex {| config := cfg; cacheIndex := [];
                       cacheStats := zeroStats None; disk := d |}).

(** A cache directory with nothing in it and no failing file. *)
Definition emptyDisk : Disk :=
  {| blobs := ∅; indexFile := None; readonlyBlobs := ∅;
     indexReadonly := false |}.

(** ** Codec helpers *)

Section Codec.
Variable rt : Runtime.
Variable cfg : Config.

(** [compressData(data)] *)
Definition compressData (data : string) : string :=
  if negb (compressionEnabled cfg) then data
  else match gzip_base64 rt data with
       | Some z => z
       | None => data
       end.

(** [decompressData(compressedData, isCompressed)] *)
Definition decompressData (compressedData : string) (isCompressed : bool)
  : string :=
  if negb isCompressed || negb (compressionEnabled cfg) then compressedData
  else match gunzip_base64 rt compressedData with
       | Some s => s
       | None => compressedData
       end.

(** [encryptData(data)] *)
Definition encryptData (data : string) : string :=
  if negb (encryptionEnabled cfg) then data
  else match cipher_hex rt (encryptionKey cfg) data with
       | Some e => e
       | None => data
       end.

(** [decryptData(encryptedData, isEncrypted)] *)
Definition decryptData (encryptedData : string) (isEncrypted : bool)
  : string :=
  if negb isEncrypted || negb (encryptionEnabled cfg) then encryptedData
  else match decipher_utf8 rt (encryptionKey cfg) encryptedData with
       | Some s => s
       | None => encryptedData
       end.

(** The write half of the pipeline, as [set] runs it: compress, record
    whether the bytes changed, encrypt, record whether the bytes
    changed. *)
Definition encode (processedData : string) : string * bool * bool :=
  let compressed := compressData processedData in
  let isCompressed := negb (bool_decide (compressed = processedData)) in
  let encrypted := encryptData compressed in
  let isEncrypted := negb (bool_decide (encrypted = compressed)) in
  (encrypted, isCompressed, isEncrypted).

(** The read half, as [get] runs it: decrypt, then decompress, each
    driven by the recorded flag. *)
Definition decode (data : string) (isCompressed isEncrypted : bool)
  : string :=
  decompressData (decryptData data isEncrypted) isCompressed.

End Codec.

(** ** Methods *)

Section Methods.
Variable rt : Runtime.

(** [generateCacheKey(data)]: [update] throws on a value that is not a
    string, which is what [JSON.stringify] leaves for [undefined]. *)
Definition generateCacheKey (d : jsval) : completion string :=
  match d with
  | JStr s => Normal (md5_hex rt s)
  | _ => match JSON_stringify rt d with
         | Some s => Normal (md5_hex rt s)
         | None => Throw
         end
  end.

(** [typeof data === 'string' ? data : JSON.stringify(data)] *)
Definition processData (d : jsval) : option string :=
  match d with
  | JStr s => Some s
  | _ => JSON_stringify rt d
  end.

(** [options.ttl || this.config.maxCacheAge] *)
Definition effectiveTtl (cfg : Config) (ttlOption : option Z) : Z :=
  match ttlOption with
  | Some t => if decide (t = 0) then maxCacheAge cfg else t
  | None => maxCacheAge cfg
  end.

(** [set(key, data, options)].  A value that [JSON.stringify] rejects,
    or turns into [undefined], makes the body throw before the blob is
    written ([Buffer.byteLength] throws on [undefined]).  The last
    statement before [return true] prints [`${key}`]: when that throws,
    the handler returns [false] with the entry already stored. *)
Definition set (key data : jsval) (ttlOption : option Z) (now : Z)
    (m : Manager) : bool * Manager :=
  match generateCacheKey key with
  | Throw => (false, m)
  | Normal cacheKey =>
    let timestamp := now in
    let ttl := effectiveTtl (config m) ttlOption in
    match processData data with
    | None => (false, m)
    | Some processedData =>
      let '(encrypted, isCompressed, isEncrypted) :=
        encode rt (config m) processedData in
      let metadata :=
        {| key := key; cacheKey := cacheKey; timestamp := timestamp;
           ttl := ttl; expiresAt := timestamp + ttl;
           size := Z.of_nat (String.length encrypted);
           isCompressed := isCompressed; isEncrypted := isEncrypted;
           dataType := typeof data; version := "1.0" |} in
      let cacheData := {| metadata := metadata; data := encrypted |} in
      if decide (cacheKey ∈ readonlyBlobs (disk m)) then (false, m)
      else
        let m1 := with_disk m (with_blobs (disk m)
                    (<[cacheKey := Parsed cacheData]> (blobs (disk m)))) in
        let m2 := with_index m1 (Map_set cacheKey metadata (cacheIndex m1)) in
        let s2 := cacheStats m2 in
        let m3 := with_stats m2
                    {| totalSize := totalSize s2;
                       totalFiles := Map_size (cacheIndex m2);
                       hits := hits s2; misses := misses s2;
                       lastCleanup := lastCleanup s2 |} in
        let m4 := updateCacheStats m3 in
        let m5 := saveCacheIndex now m4 in
        if templateThrows key then (false, m5) else (true, m5)
    end
  end.

(** [delete(key)].  The message printed before [return true] holds
    [`${key}`]: when that throws, the handler returns [false] with the
    entry already removed. *)
Definition delete (key : jsval) (now : Z) (m : Manager) : bool * Manager :=
  match generateCacheKey key with
  | Throw => (false, m)
  | Normal cacheKey =>
    match Map_get cacheKey (cacheIndex m) with
    | Some _ =>
      let unlinked :=
        match blobs (disk m) !! cacheKey with
        | Some _ =>
            if decide (cacheKey ∈ readonlyBlobs (disk m)) then Throw
            else Normal (with_disk m (with_blobs (disk m)
                           (base.delete cacheKey (blobs (disk m)))))
        | None => Normal m
        end in
      match unlinked with
      | Throw => (false, m)
      | Normal m1 =>
        let m2 := with_index m1 (Map_delete cacheKey (cacheIndex m1)) in
        let m3 := saveCacheIndex now (updateCacheStats m2) in
        if templateThrows key then (false, m3) else (true, m3)
      end
    | None => (false, m)
    end
  end.

(** [get(key)]; the value [null] is [JNull].  Three branches print
    [`${key}`] inside the [try] block, and the handler counts a miss and
    returns [null]: on expiry the message comes before [this.delete], on
    a missing blob before the index entry is dropped, and on a hit after
    [hits++]. *)
Definition get (key : jsval) (now : Z) (m : Manager) : jsval * Manager :=
  match generateCacheKey key with
  | Throw => (JNull, miss m)
  | Normal cacheKey =>
    match Map_get cacheKey (cacheIndex m) with
    | None => (JNull, miss m)
    | Some metadata =>
      if decide (now > expiresAt metadata) then
        if templateThrows key then (JNull, miss m)
        else (JNull, miss (delete key now m).2)
      else
        match blobs (disk m) !! cacheKey with
        | None =>
            if templateThrows key then (JNull, miss m)
            else
              (JNull, miss (with_index m (Map_delete cacheKey (cacheIndex m))))
        | Some Unparsable => (JNull, miss m)
        | Some (Parsed cacheData) =>
          let decrypted :=
            decryptData rt (config m) (data cacheData) (isEncrypted metadata) in
          let decompressed :=
            decompressData rt (config m) decrypted (isCompressed metadata) in
          let parsed :=
            if decide (dataType metadata = "string") then
              Some (JStr decompressed)
            else JSON_parse rt decompressed in
          match parsed with
          | Some result =>
              let m1 := hit m in
              if templateThrows key then (JNull, miss m1) else (result, m1)
          | None => (JNull, miss m)
          end
        end
    end
  end.

(** [has(key)]: no [try] around the key computation. *)
Definition has (key : jsval) (now : Z) (m : Manager)
  : completion bool * Manager :=
  match generateCacheKey key with
  | Throw => (Throw, m)
  | Normal cacheKey =>
    match Map_get cacheKey (cacheIndex m) with
    | None => (Normal false, m)
    | Some metadata =>
      if decide (now > expiresAt metadata) then
        (Normal false, (delete key now m).2)
      else (Normal true, m)
    end
  end.

(** The [try] block shared by the two sweeps: unlink the blob when it
    exists and count its size, drop the index entry, count the entry.
    A throwing [unlinkSync] is caught and leaves everything as it was;
    the handler prints [metadata.key] and the loop goes on (a handler
    that throws while printing ends the sweep with an exception: such a
    call does not return and is not described here). *)
Definition removeEntry (e : string * Metadata) (acc : Z * Z * Manager)
  : Z * Z * Manager :=
  let '(cleanedCount, cleanedSize, m) := acc in
  let '(cacheKey, metadata) := e in
  match blobs (disk m) !! cacheKey with
  | Some _ =>
    if decide (cacheKey ∈ readonlyBlobs (disk m)) then acc
    else
      let m1 := with_disk m (with_blobs (disk m)
                  (base.delete cacheKey (blobs (disk m)))) in
      (cleanedCount + 1, cleanedSize + size metadata,
       with_index m1 (Map_delete cacheKey (cacheIndex m1)))
  | None =>
    (cleanedCount + 1, cleanedSize,
     with_index m (Map_delete cacheKey (cacheIndex m)))
  end.

Definition set_lastCleanup (m : Manager) (t : option Z) : Manager :=
  let s := cacheStats m in
  with_stats m {| totalSize := totalSize s; totalFiles := totalFiles s;
                  hits := hits s; misses := misses s; lastCleanup := t |}.

(** [cleanupExpired()], returning [(cleanedCount, cleanedSize)]. *)
Definition cleanupExpired (now : Z) (m : Manager) : Z * Z * Manager :=
  let '(cleanedCount, cleanedSize, m1) :=
    foldl (fun acc e =>
             if decide (now > expiresAt e.2) then removeEntry e acc else acc)
          (0, 0, m) (cacheIndex m) in
  if decide (cleanedCount > 0) then
    (cleanedCount, cleanedSize,
     set_lastCleanup (saveCacheIndex now (updateCacheStats m1)) (Some now))
  else (cleanedCount, cleanedSize, m1).

(** The stable sort by [timestamp] of [cleanupOversized]:
    [Array.prototype.sort] is stable, so entries with equal timestamps
    keep their [Map] order. *)
Fixpoint insertByTimestamp (e : string * Metadata) (l : Index) : Index :=
  match l with
  | [] => [e]
  | e' :: rest =>
      if decide (timestamp e.2 <= timestamp e'.2) then e :: e' :: rest
      else e' :: insertByTimestamp e rest
  end.

Definition sortByTimestamp (l : Index) : Index :=
  foldr insertByTimestamp [] l.

(** The [for] loop of [cleanupOversized] with its [break]. *)
Fixpoint evictLoop (maxSize : Z) (entries : Index) (acc : Z * Z * Manager)
  : Z * Z * Manager :=
  match entries with
  | [] => acc
  | e :: rest =>
      let '(_, cleanedSize, m) := acc in
      if decide (totalSize (cacheStats m) - cleanedSize <= maxSize) then acc
      else evictLoop maxSize rest (removeEntry e acc)
  end.

(** [cleanupOversized()] *)
Definition cleanupOversized (now : Z) (m : Manager) : Z * Z * Manager :=
  if decide (totalSize (cacheStats m) <= maxCacheSize (config m)) then
    (0, 0, m)
  else
    let sortedEntries := sortByTimestamp (cacheIndex m) in
    let '(cleanedCount, cleanedSize, m1) :=
      evictLoop (maxCacheSize (config m)) sortedEntries (0, 0, m) in
    if decide (cleanedCount > 0) then
      (cleanedCount, cleanedSize, saveCacheIndex now (updateCacheStats m1))
    else (cleanedCount, cleanedSize, m1).

(** [cleanup()], returning [(totalCleaned, totalSize, remaining)]. *)
Definition cleanup (now : Z) (m : Manager) : Z * Z * Z * Manager :=
  let '(c1, s1, m1) := cleanupExpired now m in
  let '(c2, s2, m2) := cleanupOversized now m1 in
  (c1 + c2, s1 + s2, totalFiles (cacheStats m2), m2).

(** [getStats()]; the formatted strings [hitRate], [maxSize] and [usage]
    are left out. *)
Definition getStats (m : Manager) : CacheStats * Manager :=
  (cacheStats m, m).

(** The unlink loop of [clear()].  As in the sweeps, the handler of a
    failed unlink prints [metadata.key] and the loop goes on; a handler
    that throws while printing ends [clear] with an exception, and such
    a call is not described here. *)
Definition unlinkEntry (acc : Z * Disk) (e : string * Metadata) : Z * Disk :=
  let '(deletedCount, d) := acc in
  match blobs d !! e.1 with
  | Some _ =>
      if decide (e.1 ∈ readonlyBlobs d) then acc
      else (deletedCount + 1, with_blobs d (base.delete e.1 (blobs d)))
  | None => acc
  end.

(** [clear()] *)
Definition clear (now : Z) (m : Manager) : Z * Manager :=
  let '(deletedCount, d) := foldl unlinkEntry (0, disk m) (cacheIndex m) in
  let m1 := {| config := config m; cacheIndex := [];
               cacheStats := zeroStats (Some now); disk := d |} in
  (deletedCount, saveCacheIndex now m1).

(** *** Sequences of calls *)

Inductive Call : Type :=
| CallSet (key data : jsval) (ttlOption : option Z)
| CallGet (key : jsval)
| CallHas (key : jsval)
| CallDelete (key : jsval)
| CallCleanupExpired
| CallCleanupOversized
| CallCleanup
| CallClear
| CallGetStats.

(** The instance after one call made at time [now]. *)
Definition perform (now : Z) (c : Call) (m : Manager) : Manager :=
  match c with
  | CallSet k d t => (set k d t now m).2
  | CallGet k => (get k now m).2
  | CallHas k => (has k now m).2
  | CallDelete k => (delete k now m).2
  | CallCleanupExpired => (cleanupExpired now m).2
  | CallCleanupOversized => (cleanupOversized now m).2
  | CallCleanup => (cleanup now m).2
  | CallClear => (clear now m).2
  | CallGetStats => (getStats m).2
  end.

(** The instance after a sequence of timed calls. *)
Definition run (calls : list (Z * Call)) (m : Manager) : Manager :=
  foldl (fun acc c => perform c.1 c.2 acc) m calls.

(** A sequence of [get] calls. *)
Definition gets (calls : list (Z * jsval)) (m : Manager) : Manager :=
  foldl (fun acc c => (get c.2 c.1 acc).2) m calls.

End Methods.

(** ** Predicates on instances *)

(** No write or unlink throws. *)
Definition ioSucceeds (d : Disk) : Prop :=
  readonlyBlobs d = ∅ /\ indexReadonly d = false.

(** Index and blob files agree: the index holds each cache key once, and
    a cache key is in the index exactly when its blob file exists. *)
Definition consistent (m : Manager) : Prop :=
  NoDup (cacheIndex m).*1 /\
  forall k, is_Some (Map_get k (cacheIndex m)) <-> is_Some (blobs (disk m) !! k).

(** The cached aggregates are those of the index. *)
Definition statsFresh (m : Manager) : Prop :=
  totalSize (cacheStats m) = sumSizes (cacheIndex m) /\
  totalFiles (cacheStats m) = Map_size (cacheIndex m).

Definition wellFormed (m : Manager) : Prop :=
  ioSucceeds (disk m) /\ consistent m /\ statsFresh m.

(** What both sweeps keep true of their accumulator
    [(cleanedCount, cleanedSize, instance)] when they start from [m0] and
    no unlink throws. *)
Definition sweepInv (m0 : Manager) (acc : Z * Z * Manager) : Prop :=
  ioSucceeds (disk acc.2) /\ consistent acc.2 /\
  cacheStats acc.2 = cacheStats m0 /\ config acc.2 = config m0 /\
  0 <= acc.1.1 /\ (acc.1.1 = 0 -> acc.2 = m0).

(** The two counters of [cacheStats]. *)
Definition counters (m : Manager) : Z * Z :=
  (hits (cacheStats m), misses (cacheStats m)).

(** The entry that [get(key)] looks up. *)
Definition entryFound (rt : Runtime) (k : jsval) (m : Manager)
  : option (string * Metadata) :=
  match generateCacheKey rt k with
  | Normal ck => (fun md => (ck, md)) <$> Map_get ck (cacheIndex m)
  | Throw => None
  end.

Definition expired (now : Z) (md : Metadata) : bool :=
  bool_decide (now > expiresAt md).

(** The read of [get] runs to its end: the blob file exists and parses,
    and the bytes that [decryptData] and [decompressData] hand over are
    those of a string entry or are accepted by [JSON.parse].  A codec
    stage that cannot be reversed is no obstacle here: both helpers
    catch the exception and hand over their input. *)
Definition readCompletes (rt : Runtime) (m : Manager) (ck : string)
    (md : Metadata) : bool :=
  match blobs (disk m) !! ck with
  | Some (Parsed cd) =>
      bool_decide (dataType md = "string")
      || bool_decide (is_Some (JSON_parse rt
           (decode rt (config m) (data cd) (isCompressed md) (isEncrypted md))))
  | _ => false
  end.

(** The condition under which [get(key)] at [now] reaches [hits++]: the
    entry is found, has not expired, and the read runs to its end. *)
Definition expectedHit (rt : Runtime) (k : jsval) (now : Z) (m : Manager)
  : bool :=
  match entryFound rt k m with
  | Some (ck, md) => negb (expired now md) && readCompletes rt m ck md
  | None => false
  end.

(** Decoding in the words of the specification: a stage that the
    metadata records as applied is reversed by its built-in, and a stage
    that cannot be reversed is an error for the read. *)
Definition strictDecode (rt : Runtime) (cfg : Config) (data : string)
    (isCompressed isEncrypted : bool) : option string :=
  decrypted ← (if isEncrypted
               then decipher_utf8 rt (encryptionKey cfg) data
               else Some data);
  if isCompressed then gunzip_base64 rt decrypted else Some decrypted.

(** The hit condition in the words of the specification of the
    statistics: the entry is found, has not expired, and decoding
    succeeds. *)
Definition specifiedHit (rt : Runtime) (k : jsval) (now : Z) (m : Manager)
  : bool :=
  match entryFound rt k m with
  | Some (ck, md) =>
      negb (expired now md) &&
      match blobs (disk m) !! ck with
      | Some (Parsed cd) =>
          match strictDecode rt (config m) (data cd)
                  (isCompressed md) (isEncrypted md) with
          | Some s =>
              bool_decide (dataType md = "string")
              || bool_decide (is_Some (JSON_parse rt s))
          | None => false
          end
      | _ => false
      end
  | None => false
  end.

(** The outcomes (hit is [true]) of a sequence of [get] calls. *)
Fixpoint outcomes (rt : Runtime) (calls : list (Z * jsval)) (m : Manager)
  : list bool :=
  match calls with
  | [] => []
  | c :: rest =>
      expectedHit rt c.2 c.1 m :: outcomes rt rest (get rt c.2 c.1 m).2
  end.

Definition countOf (b : bool) (l : list bool) : Z :=
  Z.of_nat (length (filter (fun x => x = b) l)).

(** [JSON.parse] gives back the value that [JSON.stringify] serialised
    (asked only of values that [set] serialises, the non-strings). *)
Definition jsonRoundTrips (rt : Runtime) (v : jsval) : Prop :=
  match v with
  | JStr _ => True
  | _ => forall s, JSON_stringify rt v = Some s -> JSON_parse rt s = Some v
  end.

(** Entries in write order: [a] was written no later than [b]. *)
Definition olderOrSame (a b : string * Metadata) : Prop :=
  timestamp a.2 <= timestamp b.2.

(** The index that the snapshot file holds. *)
Definition persistedIndex (m : Manager) : option Index :=
  snap_index <$> indexFile (disk m).

(** ** A small runtime, to run the methods on concrete inputs *)

Fixpoint stripPrefix (p s : string) : option string :=
  match p, s with
  | EmptyString, _ => Some s
  | String a p', String b s' =>
      if decide (a = b) then stripPrefix p' s' else None
  | String _ _, EmptyString => None
  end.

(** The hash is the identity, compression prepends the gzip magic in
    base64, the cipher prepends the key, and JSON knows the literals. *)
(** The double quote of a JSON text. *)
Definition doubleQuote : string := String (Ascii.ascii_of_nat 34) EmptyString.

Definition sampleRuntime : Runtime :=
  {| md5_hex := fun s => s;
     gzip_base64 := fun s => Some ("H4sI" +:+ s);
     gunzip_base64 := stripPrefix "H4sI";
     cipher_hex := fun k s => Some (k +:+ s);
     decipher_utf8 := fun k s => stripPrefix k s;
     JSON_stringify := fun v =>
       match v with
       | JNull => Some "null"
       | JBool true => Some "true"
       | JBool false => Some "false"
       | JNum n => Some (pretty n)
       | JObj [(name, JNum n)] =>
           Some ("{" +:+ doubleQuote +:+ name +:+ doubleQuote +:+ ":"
                 +:+ pretty n +:+ "}")
       | _ => None
       end;
     JSON_parse := fun s =>
       if decide (s = "null") then Some JNull
       else if decide (s = "true") then Some (JBool true)
       else if decide (s = "false") then Some (JBool false)
       else None |}.

Definition sampleConfig (compress encrypt : bool) (maxSize : Z) : Config :=
  {| cacheDir := "./cache"; maxCacheSize := maxSize;
     maxCacheAge := 7 * 24 * 60 * 60 * 1000;
     compressionEnabled := compress; encryptionEnabled := encrypt;
     encryptionKey := "k" |}.

(** A key that has a cache key and cannot be printed: the object
    [{toString: 1}]. *)
Definition unprintableKey : jsval := JObj [("toString", JNum 1)].

(** A fresh instance on an empty directory, and the same instance after
    one [set] and one [get] of that entry. *)
Definition freshManager : Manager :=
  newManager (sampleConfig true false 100) emptyDisk.

Definition usedManager : Manager :=
  run sampleRuntime
    [(0, CallSet (JStr "k") (JStr "v") None); (1, CallGet (JStr "k"))]
    freshManager.

(** A directory in which the blob of cache key ["k"] cannot be written. *)
Definition lockedDisk : Disk :=
  {| blobs := ∅; indexFile := None; readonlyBlobs := {["k"]};
     indexReadonly := false |}.

(** The instance after [set("k", "v")] at time 0 on a fresh cache. *)
Definition writtenManager : Manager :=
  (set sampleRuntime (JStr "k") (JStr "v") None 0 freshManager).2.

(** The bytes of a blob replaced on disk, behind the back of the cache. *)
Definition damageBlob (ck bytes : string) (m : Manager) : Manager :=
  with_disk m (with_blobs (disk m)
    (alter (fun b => match b with
                     | Parsed c => Parsed {| metadata := metadata c;
                                             data := bytes |}
                     | Unparsable => Unparsable
                     end) ck (blobs (disk m)))).

(** The entry of [writtenManager], recorded as compressed, with bytes on
    disk that are not a gzip stream. *)
Definition corruptManager : Manager := damageBlob "k" "garbage" writtenManager.

(** A process started on the directory of [writtenManager] after the
    blob file was removed: the index, loaded from the snapshot, names a
    blob that is not there. *)
Definition staleManager : Manager :=
  newManager (sampleConfig true false 100)
    (with_blobs (disk writtenManager) ∅).

(** Five entries of 30 bytes each, written at times 1 to 5, in a cache
    whose budget is 100 bytes and which neither compresses nor
    encrypts. *)
Definition thirtyBytes : string := "123456789012345678901234567890".

Definition fiveManager : Manager :=
  run sampleRuntime
    [(1, CallSet (JStr "a") (JStr thirtyBytes) None);
     (2, CallSet (JStr "b") (JStr thirtyBytes) None);
     (3, CallSet (JStr "c") (JStr thirtyBytes) None);
     (4, CallSet (JStr "d") (JStr thirtyBytes) None);
     (5, CallSet (JStr "e") (JStr thirtyBytes) None)]
    (newManager (sampleConfig false false 100) emptyDisk).

(** The blob of cache key [ck] made impossible to write or unlink. *)
Definition lockBlob (ck : string) (m : Manager) : Manager :=
  with_disk m
    {| blobs := blobs (disk m); indexFile := indexFile (disk m);
       readonlyBlobs := {[ck]} ∪ readonlyBlobs (disk m);
       indexReadonly := indexReadonly (disk m) |}.

(** [writtenManager] with the blob of its entry locked. *)
Definition lockedManager : Manager := lockBlob "k" writtenManager.

(** The snapshot file made impossible to write. *)
Definition lockIndexFile (m : Manager) : Manager :=
  with_disk m
    {| blobs := blobs (disk m); indexFile := indexFile (disk m);
       readonlyBlobs := readonlyBlobs (disk m); indexReadonly := true |}.

(** An entry is past its expiry time at [now]: the test of [get],
    [has] and [cleanupExpired]. *)
Definition pastExpiry (now : Z) (e : string * Metadata) : Prop :=
  now > expiresAt e.2.

#[global] Instance pastExpiry_dec now e : Decision (pastExpiry now e).
Proof. unfold pastExpiry. apply _. Defined.

#[global] Typeclasses Opaque pastExpiry.

(** Two instances with the same configuration, index, blob files,
    unlinkable blobs and cached total size; counters and snapshot may
    differ. *)
Definition sameContent (m1 m2 : Manager) : Prop :=
  config m1 = config m2 /\ cacheIndex m1 = cacheIndex m2 /\
  blobs (disk m1) = blobs (disk m2) /\
  readonlyBlobs (disk m1) = readonlyBlobs (disk m2) /\
  totalSize (cacheStats m1) = totalSize (cacheStats m2).

(** The command line at the end of the file: the constructor, then the
    first action whose flag is among the arguments. *)
Inductive CliOutcome : Type :=
| RanCleanup (result : Z * Z * Z)
| ShowedStats (stats : CacheStats)
| RanClear (deleted : Z)
| ShowedUsage.

Definition main (envKey : option string) (d : Disk) (args : list string)
    (now : Z) : CliOutcome * Manager :=
  let cacheManager := newManager (defaultConfig envKey) d in
  if decide ("--cleanup" ∈ args) then
    let '(r, m) := cleanup now cacheManager in (RanCleanup r, m)
  else if decide ("--stats" ∈ args) then
    let '(st, m) := getStats cacheManager in (ShowedStats st, m)
  else if decide ("--clear" ∈ args) then
    let '(n, m) := clear now cacheManager in (RanClear n, m)
  else (ShowedUsage, cacheManager).

(** * Properties *)

Lemma stripPrefix_app p s : stripPrefix p (p +:+ s) = Some s.
Proof.
  induction p as [|a p IH]; simpl; [by destruct s|].
  by rewrite decide_True.
Qed.

Lemma sampleRuntime_gunzip : gunzip_inverts_gzip sampleRuntime.
Proof. intros x y [= <-]. apply (stripPrefix_app "H4sI"). Qed.

Lemma sampleRuntime_decipher : decipher_inverts_cipher sampleRuntime.
Proof. intros k x y [= <-]. apply stripPrefix_app. Qed.

(** ** The index as a [Map] *)

Lemma Map_get_set k k' v idx :
  Map_get k (Map_set k' v idx) =
  if decide (k' = k) then Some v else Map_get k idx.
Proof.
  induction idx as [|[k0 v0] idx IH]; simpl.
  - by destruct (decide (k' = k)).
  - destruct (decide (k0 = k')) as [->|Hne]; simpl.
    + by destruct (decide (k' = k)).
    + rewrite IH. destruct (decide (k0 = k)) as [->|]; [|done].
      by rewrite decide_False.
Qed.

Lemma Map_get_delete k k' idx :
  Map_get k (Map_delete k' idx) =
  if decide (k' = k) then None else Map_get k idx.
Proof.
  unfold Map_delete.
  induction idx as [|[k0 v0] idx IH]; simpl.
  - by destruct (decide (k' = k)).
  - rewrite filter_cons. simpl.
    destruct (decide (k0 <> k')) as [Hne|Heq]; simpl.
    + rewrite IH. destruct (decide (k0 = k)) as [->|]; [|done].
      by rewrite decide_False.
    + apply dec_stable in Heq. subst k0. rewrite IH.
      by destruct (decide (k' = k)).
Qed.

Lemma Map_get_is_Some k idx : is_Some (Map_get k idx) <-> k ∈ idx.*1.
Proof.
  induction idx as [|[k0 v0] idx IH]; simpl.
  - split; [by intros [? ?]|by intros ?%elem_of_nil].
  - rewrite elem_of_cons. destruct (decide (k0 = k)) as [->|Hne].
    + split; [by left|by eexists].
    + rewrite IH. split; [by right|]. by intros [->|?].
Qed.

Lemma Map_set_keys k v idx :
  (Map_set k v idx).*1 = if decide (k ∈ idx.*1) then idx.*1 else idx.*1 ++ [k].
Proof.
  induction idx as [|[k0 v0] idx IH].
  - cbn [Map_set]. case_decide as Hin; [|done]. by apply elem_of_nil in Hin.
  - cbn [Map_set]. rewrite fmap_cons. cbn [fst].
    destruct (decide (k0 = k)) as [->|Hne].
    + rewrite fmap_cons. clear IH.
      case_decide as Hin; [done|]. destruct Hin. by left.
    + rewrite fmap_cons, IH. cbn [fst]. clear IH.
      destruct (decide (k ∈ idx.*1)) as [Hin|Hnin].
      * case_decide as Hin'; [done|]. destruct Hin'. by right.
      * case_decide as Hin'; [|done].
        apply elem_of_cons in Hin' as [->|?]; done.
Qed.

Lemma Map_set_NoDup k v idx : NoDup idx.*1 -> NoDup (Map_set k v idx).*1.
Proof.
  intros Hnd. rewrite Map_set_keys.
  destruct (decide (k ∈ idx.*1)) as [|Hnin]; [done|].
  apply NoDup_app. split; [done|]. split; [|apply NoDup_singleton].
  by intros x Hx ->%list_elem_of_singleton.
Qed.

Lemma Map_delete_keys k idx :
  (Map_delete k idx).*1 = filter (fun k0 => k0 <> k) idx.*1.
Proof.
  unfold Map_delete.
  induction idx as [|[k0 v0] idx IH]; [done|].
  rewrite fmap_cons, !filter_cons. cbn [fst].
  destruct (decide (k0 <> k)); [rewrite fmap_cons|]; by rewrite IH.
Qed.

Lemma Map_delete_NoDup k idx : NoDup idx.*1 -> NoDup (Map_delete k idx).*1.
Proof. intros Hnd. rewrite Map_delete_keys. by apply NoDup_filter. Qed.

(** ** Steps shared by the methods *)

Lemma saveCacheIndex_ok now m :
  ioSucceeds (disk m) ->
  saveCacheIndex now m =
  with_disk m (with_indexFile (disk m)
    (Some {| snap_version := "1.0"; snap_timestamp := now;
             snap_index := cacheIndex m; snap_stats := cacheStats m |})).
Proof. intros [_ Hidx]. unfold saveCacheIndex. by rewrite Hidx. Qed.

Lemma writable k d : ioSucceeds d -> k ∉ readonlyBlobs d.
Proof. intros [-> _]. apply not_elem_of_empty. Qed.

Lemma consistent_insert m m' k md :
  consistent m ->
  cacheIndex m' = Map_set k md (cacheIndex m) ->
  (exists b, blobs (disk m') = <[k := b]> (blobs (disk m))) ->
  consistent m'.
Proof.
  intros [Hnd Hiff] Hi [b Hb]. unfold consistent. rewrite Hi.
  split; [by apply Map_set_NoDup|].
  intros k0. rewrite Hb, Map_get_set, lookup_insert.
  destruct (decide (k = k0)); [|apply Hiff].
  split; intros _; by eexists.
Qed.

Lemma consistent_delete m m' k :
  consistent m ->
  cacheIndex m' = Map_delete k (cacheIndex m) ->
  blobs (disk m') = base.delete k (blobs (disk m)) ->
  consistent m'.
Proof.
  intros [Hnd Hiff] Hi Hb. unfold consistent. rewrite Hi.
  split; [by apply Map_delete_NoDup|].
  intros k0. rewrite Hb, Map_get_delete, lookup_delete.
  destruct (decide (k = k0)); [|apply Hiff].
  split; by intros [? ?].
Qed.

Lemma consistent_same m m' :
  consistent m ->
  cacheIndex m' = cacheIndex m ->
  blobs (disk m') = blobs (disk m) ->
  consistent m'.
Proof. intros [Hnd Hiff] Hi Hb. unfold consistent. by rewrite Hi, Hb. Qed.

Section MethodProperties.
Variable rt : Runtime.

(** One removal of a sweep when no unlink throws. *)
Lemma removeEntry_ok e c s m :
  ioSucceeds (disk m) ->
  exists m',
    removeEntry e (c, s, m) =
      (c + 1,
       s + (if blobs (disk m) !! e.1 is Some _ then size e.2 else 0),
       m') /\
    cacheIndex m' = Map_delete e.1 (cacheIndex m) /\
    blobs (disk m') = base.delete e.1 (blobs (disk m)) /\
    indexFile (disk m') = indexFile (disk m) /\
    ioSucceeds (disk m') /\
    cacheStats m' = cacheStats m /\ config m' = config m.
Proof.
  intros Hio. destruct e as [k md]. unfold removeEntry. cbn [fst snd].
  destruct (blobs (disk m) !! k) as [b|] eqn:Hb.
  - rewrite decide_False by by apply writable.
    eexists. split; [reflexivity|]. by destruct Hio.
  - eexists. split; [by rewrite Z.add_0_r|].
    cbn. rewrite delete_id by done. by destruct Hio.
Qed.

Lemma removeEntry_sweepInv m0 e acc :
  sweepInv m0 acc -> sweepInv m0 (removeEntry e acc).
Proof.
  destruct acc as [[c s] m]. unfold sweepInv. cbn [fst snd].
  intros (Hio & Hcons & Hst & Hcfg & Hc & _).
  destruct (removeEntry_ok e c s m Hio)
    as (m' & -> & Hi & Hb & _ & Hio' & Hst' & Hcfg').
  cbn [fst snd]. split_and!; try done; try congruence; try lia.
  by eapply consistent_delete.
Qed.

Lemma foldl_invariant {A B} (P : A -> Prop) (f : A -> B -> A) l a :
  P a -> (forall a x, P a -> P (f a x)) -> P (foldl f a l).
Proof.
  intros Ha Hstep. revert a Ha.
  induction l as [|x l IH]; intros a Ha; [done|].
  cbn. apply IH. by apply Hstep.
Qed.

Lemma evictLoop_invariant (P : Z * Z * Manager -> Prop) maxSize l acc :
  P acc -> (forall e acc, P acc -> P (removeEntry e acc)) ->
  P (evictLoop maxSize l acc).
Proof.
  intros Ha Hstep. revert acc Ha.
  induction l as [|e l IH]; intros [[c s] m] Ha; [done|].
  cbn [evictLoop]. case_decide; [done|]. apply IH. by apply Hstep.
Qed.

Lemma sweepInv_start m : wellFormed m -> sweepInv m (0, 0, m).
Proof. intros (Hio & Hcons & _). by unfold sweepInv. Qed.

(** The end of a sweep: statistics are recomputed and the index saved
    when something was removed. *)
Lemma sweepInv_finish m0 c s m (finish : Manager -> Manager) :
  wellFormed m0 ->
  sweepInv m0 (c, s, m) ->
  (forall m1, ioSucceeds (disk m1) ->
     cacheIndex (finish m1) = cacheIndex m1 /\
     blobs (disk (finish m1)) = blobs (disk m1) /\
     totalSize (cacheStats (finish m1)) = totalSize (cacheStats m1) /\
     totalFiles (cacheStats (finish m1)) = totalFiles (cacheStats m1) /\
     ioSucceeds (disk (finish m1))) ->
  wellFormed (if decide (c > 0) then finish (updateCacheStats m) else m).
Proof.
  intros Hwf (Hio & Hcons & Hst & Hcfg & Hc & Hsame) Hfin.
  cbn [fst snd] in *. case_decide as Hpos.
  - destruct (Hfin (updateCacheStats m) Hio) as (Hi & Hb & Hts & Htf & Hio').
    split_and!; [done| |].
    + by eapply consistent_same.
    + unfold statsFresh. by rewrite Hts, Htf, Hi.
  - assert (c = 0) as Hz by lia. by rewrite (Hsame Hz).
Qed.

(** *** Every method keeps a well-formed instance well-formed *)

Lemma hit_wellFormed m : wellFormed m -> wellFormed (hit m).
Proof. by intros (? & ? & ?). Qed.

Lemma miss_wellFormed m : wellFormed m -> wellFormed (miss m).
Proof. by intros (? & ? & ?). Qed.

Lemma set_wellFormed k d t now m :
  wellFormed m -> wellFormed (set rt k d t now m).2.
Proof.
  intros Hwf. pose proof Hwf as (Hio & Hcons & Hfresh). unfold set.
  destruct (generateCacheKey rt k) as [ck|]; [|done].
  destruct (processData rt d) as [pd|]; [|done].
  destruct (encode rt (config m) pd) as [[enc isC] isE].
  rewrite decide_False by by apply writable.
  destruct (templateThrows k); cbn [snd]; rewrite saveCacheIndex_ok by done;
    (split_and!; [done| |by split]);
    (eapply consistent_insert; [done|reflexivity|by eexists]).
Qed.

Lemma delete_wellFormed k now m :
  wellFormed m -> wellFormed (delete rt k now m).2.
Proof.
  intros Hwf. pose proof Hwf as (Hio & Hcons & Hfresh). unfold delete.
  destruct (generateCacheKey rt k) as [ck|]; [|done].
  destruct (Map_get ck (cacheIndex m)) as [md|] eqn:Hmd; [|done].
  destruct (blobs (disk m) !! ck) as [b|] eqn:Hb.
  - rewrite decide_False by by apply writable.
    destruct (templateThrows k); cbn [snd];
      rewrite saveCacheIndex_ok by done;
      (split_and!; [done| |by split]);
      (eapply consistent_delete; [done|reflexivity|reflexivity]).
  - destruct (templateThrows k); cbn [snd];
      rewrite saveCacheIndex_ok by done;
      (split_and!; [done| |by split]);
      (eapply consistent_delete; [done|reflexivity|]);
      cbn; by rewrite delete_id.
Qed.

Lemma get_wellFormed k now m :
  wellFormed m -> wellFormed (get rt k now m).2.
Proof.
  intros Hwf. unfold get.
  destruct (generateCacheKey rt k) as [ck|] eqn:Hk;
    [|by apply miss_wellFormed].
  destruct (Map_get ck (cacheIndex m)) as [md|] eqn:Hmd;
    [|by apply miss_wellFormed].
  case_decide.
  { destruct (templateThrows k); cbn [snd]; apply miss_wellFormed;
      [done|by apply delete_wellFormed]. }
  destruct (blobs (disk m) !! ck) as [[cd|]|] eqn:Hb.
  - cbn zeta.
    destruct (if decide (dataType md = "string") then _ else _);
      [|by apply miss_wellFormed].
    destruct (templateThrows k); cbn [snd];
      [by apply miss_wellFormed, hit_wellFormed|by apply hit_wellFormed].
  - by apply miss_wellFormed.
  - destruct Hwf as (_ & [_ Hiff] & _).
    assert (is_Some (blobs (disk m) !! ck)) as [? ?]
      by (apply Hiff; by eexists).
    congruence.
Qed.

Lemma has_wellFormed k now m :
  wellFormed m -> wellFormed (has rt k now m).2.
Proof.
  intros Hwf. unfold has.
  destruct (generateCacheKey rt k) as [ck|]; [|done].
  destruct (Map_get ck (cacheIndex m)) as [md|]; [|done].
  case_decide; [by apply delete_wellFormed|done].
Qed.

Lemma cleanupExpired_wellFormed now m :
  wellFormed m -> wellFormed (cleanupExpired now m).2.
Proof.
  intros Hwf. unfold cleanupExpired.
  match goal with |- context [foldl ?f ?a ?l] =>
    pose proof (foldl_invariant (sweepInv m) f l a (sweepInv_start m Hwf))
      as Hinv; destruct (foldl f a l) as [[c s] m1] end.
  assert (sweepInv m (c, s, m1)) as Hs.
  { apply Hinv. intros acc e Hacc.
    case_decide; [by apply removeEntry_sweepInv|done]. }
  pose proof (sweepInv_finish m c s m1
    (fun x => set_lastCleanup (saveCacheIndex now x) (Some now)) Hwf Hs)
    as Hfin.
  cbn beta in Hfin. case_decide; cbn [snd]; apply Hfin;
    intros m2 Hio; rewrite saveCacheIndex_ok by done; by destruct Hio.
Qed.

Lemma cleanupOversized_wellFormed now m :
  wellFormed m -> wellFormed (cleanupOversized now m).2.
Proof.
  intros Hwf. unfold cleanupOversized. case_decide; [done|].
  match goal with |- context [evictLoop ?x ?l ?a] =>
    pose proof (evictLoop_invariant (sweepInv m) x l a
                  (sweepInv_start m Hwf) (removeEntry_sweepInv m))
      as Hs; destruct (evictLoop x l a) as [[c s] m1] end.
  pose proof (sweepInv_finish m c s m1 (saveCacheIndex now) Hwf Hs) as Hfin.
  case_decide; cbn [snd]; apply Hfin;
    intros m2 Hio; rewrite saveCacheIndex_ok by done; by destruct Hio.
Qed.

Lemma cleanup_wellFormed now m :
  wellFormed m -> wellFormed (cleanup now m).2.
Proof.
  intros Hwf. unfold cleanup.
  pose proof (cleanupExpired_wellFormed now m Hwf) as H1.
  destruct (cleanupExpired now m) as [[c1 s1] m1]. cbn [snd] in H1.
  pose proof (cleanupOversized_wellFormed now m1 H1) as H2.
  by destruct (cleanupOversized now m1) as [[c2 s2] m2].
Qed.

(** What the unlink loop of [clear] leaves on a disk where nothing
    throws. *)
Lemma unlinkEntry_ok acc e :
  ioSucceeds acc.2 ->
  ioSucceeds (unlinkEntry acc e).2 /\
  blobs (unlinkEntry acc e).2 = base.delete e.1 (blobs acc.2).
Proof.
  destruct acc as [c d]. cbn [snd]. intros Hio. unfold unlinkEntry.
  destruct (blobs d !! e.1) eqn:Hb.
  - rewrite decide_False by by apply writable. by destruct Hio.
  - by rewrite delete_id.
Qed.

Lemma unlink_all l acc :
  ioSucceeds acc.2 ->
  ioSucceeds (foldl unlinkEntry acc l).2 /\
  forall k, blobs (foldl unlinkEntry acc l).2 !! k =
            if decide (k ∈ l.*1) then None else blobs acc.2 !! k.
Proof.
  revert acc. induction l as [|e l IH]; intros acc Hio.
  - split; [done|]. intros k. rewrite decide_False; [done|].
    by intros ?%elem_of_nil.
  - cbn [foldl]. destruct (unlinkEntry_ok acc e Hio) as [Hio' Hb].
    destruct (IH _ Hio') as [Hio'' Hlk]. split; [done|].
    intros k. rewrite Hlk, Hb, fmap_cons, lookup_delete.
    destruct (decide (k ∈ l.*1)) as [Hin|Hnin].
    + rewrite decide_True; [done|]. by right.
    + destruct (decide (e.1 = k)) as [<-|Hne].
      * rewrite decide_True; [done|]. by left.
      * rewrite decide_False; [done|].
        intros [->|?]%elem_of_cons; done.
Qed.

Lemma clear_wellFormed now m :
  wellFormed m -> wellFormed (clear now m).2.
Proof.
  intros (Hio & [Hnd Hiff] & Hfresh). unfold clear.
  destruct (unlink_all (cacheIndex m) (0, disk m) Hio) as [Hio' Hlk].
  destruct (foldl unlinkEntry (0, disk m) (cacheIndex m)) as [c d].
  cbn [snd] in *. rewrite saveCacheIndex_ok by done.
  split_and!; [by destruct Hio'| |by split].
  split; [apply NoDup_nil_2|]. intros k. cbn. rewrite Hlk.
  case_decide as Hin; [by split; intros [? ?]|].
  split; [by intros [? ?]|]. intros Hb.
  destruct Hin. by apply Map_get_is_Some, Hiff.
Qed.

Lemma perform_wellFormed now c m :
  wellFormed m -> wellFormed (perform rt now c m).
Proof.
  destruct c; cbn [perform].
  - apply set_wellFormed.
  - apply get_wellFormed.
  - apply has_wellFormed.
  - apply delete_wellFormed.
  - apply cleanupExpired_wellFormed.
  - apply cleanupOversized_wellFormed.
  - apply cleanup_wellFormed.
  - apply clear_wellFormed.
  - done.
Qed.

Lemma run_wellFormed calls m :
  wellFormed m -> wellFormed (run rt calls m).
Proof.
  intros Hwf. unfold run. apply foldl_invariant; [done|].
  intros acc [now c]. apply perform_wellFormed.
Qed.

Lemma newManager_wellFormed cfg : wellFormed (newManager cfg emptyDisk).
Proof.
  split_and!; [done| |done].
  split; [apply NoDup_nil_2|]. intros k. cbn.
  rewrite lookup_empty. by split; intros [? ?].
Qed.

End MethodProperties.

(** ** Consistency of index and blob files *)

(** C2. Consistency invariant: starting from an empty cache directory
    on which no file operation fails, after any finite sequence of calls
    to [set], [get], [has], [delete], [cleanupExpired],
    [cleanupOversized], [cleanup], [clear] and [getStats], the index
    holds each cache key once, and a cache key is in the index exactly
    when its blob file exists. *)
Theorem C2_index_blob_consistency (rt : Runtime) (cfg : Config)
    (calls : list (Z * Call)) :
  consistent (run rt calls (newManager cfg emptyDisk)).
Proof.
  apply (run_wellFormed rt calls (newManager cfg emptyDisk)).
  apply newManager_wellFormed.
Qed.

(** ** Failing blob write *)

(** C9. When the blob write of [set] throws, [set] returns [false] and
    the instance is what it was: same index, same statistics, same
    files. *)
Theorem C9_set_failed_write_changes_nothing (rt : Runtime)
    (key data : jsval) (ttlOption : option Z) (now : Z) (m : Manager)
    (ck : string) :
  generateCacheKey rt key = Normal ck ->
  ck ∈ readonlyBlobs (disk m) ->
  set rt key data ttlOption now m = (false, m).
Proof.
  intros Hk Hro. unfold set. rewrite Hk.
  destruct (processData rt data) as [pd|]; [|done].
  destruct (encode rt (config m) pd) as [[enc isC] isE].
  by rewrite decide_True.
Qed.

Lemma C9_set_failed_write_witness :
  generateCacheKey sampleRuntime (JStr "k") = Normal "k" /\
  "k" ∈ readonlyBlobs lockedDisk /\
  set sampleRuntime (JStr "k") (JStr "v") None 7
      (newManager (sampleConfig true false 100) lockedDisk) =
    (false, newManager (sampleConfig true false 100) lockedDisk).
Proof.
  assert ("k" ∈ readonlyBlobs lockedDisk) as Hro by (vm_compute; reflexivity).
  split; [reflexivity|]. split; [exact Hro|].
  apply (C9_set_failed_write_changes_nothing sampleRuntime (JStr "k")
           (JStr "v") None 7
           (newManager (sampleConfig true false 100) lockedDisk) "k");
    [reflexivity|exact Hro].
Defined.

(** ** Codec *)

Section CodecProperties.
Variable rt : Runtime.
Variable cfg : Config.

Lemma decompress_compress x :
  gunzip_inverts_gzip rt ->
  decompressData rt cfg (compressData rt cfg x)
    (negb (bool_decide (compressData rt cfg x = x))) = x.
Proof.
  intros Hz. unfold decompressData.
  case_bool_decide as Hsame; simpl; [done|].
  unfold compressData in *.
  destruct (compressionEnabled cfg); simpl in *; [|done].
  destruct (gzip_base64 rt x) as [z|] eqn:Hg; [|done].
  by rewrite (Hz _ _ Hg).
Qed.

Lemma decrypt_encrypt x :
  decipher_inverts_cipher rt ->
  decryptData rt cfg (encryptData rt cfg x)
    (negb (bool_decide (encryptData rt cfg x = x))) = x.
Proof.
  intros Hc. unfold decryptData.
  case_bool_decide as Hsame; simpl; [done|].
  unfold encryptData in *.
  destruct (encryptionEnabled cfg); simpl in *; [|done].
  destruct (cipher_hex rt (encryptionKey cfg) x) as [e|] eqn:He; [|done].
  by rewrite (Hc _ _ _ He).
Qed.

Lemma decode_encode x :
  gunzip_inverts_gzip rt ->
  decipher_inverts_cipher rt ->
  let '(out, isCompressed, isEncrypted) := encode rt cfg x in
  decode rt cfg out isCompressed isEncrypted = x.
Proof.
  intros Hz Hc. unfold encode, decode.
  rewrite decrypt_encrypt by done.
  by apply decompress_compress.
Qed.

End CodecProperties.

(** C1. Codec round trip: under one configuration, whatever the two
    enabling flags are, decoding what [encode] produced, with the flags
    [encode] reported, gives the payload back. The zlib and cipher
    built-ins are assumed to invert each other. *)
Theorem C1_codec_roundtrip (rt : Runtime) (cfg : Config) (x : string) :
  gunzip_inverts_gzip rt ->
  decipher_inverts_cipher rt ->
  let '(out, isCompressed, isEncrypted) := encode rt cfg x in
  decode rt cfg out isCompressed isEncrypted = x.
Proof.
  intros Hz Hc. by apply decode_encode.
Qed.

Lemma C1_codec_roundtrip_witness :
  gunzip_inverts_gzip sampleRuntime /\
  decipher_inverts_cipher sampleRuntime /\
  let '(out, isCompressed, isEncrypted) :=
    encode sampleRuntime (sampleConfig true true 100) "payload" in
  decode sampleRuntime (sampleConfig true true 100) out
    isCompressed isEncrypted = "payload".
Proof.
  split; [exact sampleRuntime_gunzip|].
  split; [exact sampleRuntime_decipher|].
  exact (C1_codec_roundtrip sampleRuntime (sampleConfig true true 100)
           "payload" sampleRuntime_gunzip sampleRuntime_decipher).
Defined.

(** ** Hit and miss counters *)

Section Counters.
Variable rt : Runtime.

Lemma saveCacheIndex_stats now m :
  cacheStats (saveCacheIndex now m) = cacheStats m.
Proof. unfold saveCacheIndex. by destruct (indexReadonly (disk m)). Qed.

Lemma saveCacheIndex_index now m :
  cacheIndex (saveCacheIndex now m) = cacheIndex m.
Proof. unfold saveCacheIndex. by destruct (indexReadonly (disk m)). Qed.

Lemma saveCacheIndex_blobs now m :
  blobs (disk (saveCacheIndex now m)) = blobs (disk m).
Proof. unfold saveCacheIndex. by destruct (indexReadonly (disk m)). Qed.

Lemma saveCacheIndex_readonly now m :
  readonlyBlobs (disk (saveCacheIndex now m)) = readonlyBlobs (disk m).
Proof. unfold saveCacheIndex. by destruct (indexReadonly (disk m)). Qed.

Lemma saveCacheIndex_indexReadonly now m :
  indexReadonly (disk (saveCacheIndex now m)) = indexReadonly (disk m).
Proof.
  unfold saveCacheIndex. by destruct (indexReadonly (disk m)) eqn:H.
Qed.

Lemma saveCacheIndex_config now m :
  config (saveCacheIndex now m) = config m.
Proof. unfold saveCacheIndex. by destruct (indexReadonly (disk m)). Qed.

Lemma removeEntry_stats e acc :
  cacheStats (removeEntry e acc).2 = cacheStats acc.2.
Proof.
  destruct acc as [[c s] m], e as [k md]. unfold removeEntry.
  destruct (blobs (disk m) !! k); [|done]. by case_decide.
Qed.

Lemma set_counters k d t now m : counters (set rt k d t now m).2 = counters m.
Proof.
  unfold set. destruct (generateCacheKey rt k); [|done].
  destruct (processData rt d); [|done].
  destruct (encode rt (config m) _) as [[enc isC] isE].
  case_decide; [done|]. unfold counters.
  destruct (templateThrows k); cbn [snd]; by rewrite saveCacheIndex_stats.
Qed.

Lemma delete_counters k now m : counters (delete rt k now m).2 = counters m.
Proof.
  unfold delete. destruct (generateCacheKey rt k) as [ck|]; [|done].
  destruct (Map_get ck (cacheIndex m)); [|done].
  destruct (blobs (disk m) !! ck).
  - case_decide; [done|]. unfold counters.
    destruct (templateThrows k); cbn [snd]; by rewrite saveCacheIndex_stats.
  - unfold counters.
    destruct (templateThrows k); cbn [snd]; by rewrite saveCacheIndex_stats.
Qed.

Lemma has_counters k now m : counters (has rt k now m).2 = counters m.
Proof.
  unfold has. destruct (generateCacheKey rt k) as [ck|]; [|done].
  destruct (Map_get ck (cacheIndex m)); [|done].
  case_decide; [apply delete_counters|done].
Qed.

Lemma counters_miss m :
  counters (miss m) = (hits (cacheStats m), misses (cacheStats m) + 1).
Proof. done. Qed.

Lemma counters_hit m :
  counters (hit m) = (hits (cacheStats m) + 1, misses (cacheStats m)).
Proof. done. Qed.

(** What one [get] does to the counters: [hits] moves, by one, exactly
    when [expectedHit] holds; [misses] moves, by one, in every other
    case, and also on a hit whose message cannot be printed. *)
Lemma get_counters k now m :
  counters (get rt k now m).2 =
  if expectedHit rt k now m
  then (hits (cacheStats m) + 1,
        if templateThrows k then misses (cacheStats m) + 1
        else misses (cacheStats m))
  else (hits (cacheStats m), misses (cacheStats m) + 1).
Proof.
  unfold get, expectedHit, entryFound.
  destruct (generateCacheKey rt k) as [ck|] eqn:Hk; [|done].
  destruct (Map_get ck (cacheIndex m)) as [md|] eqn:Hmd; [|done].
  cbn [fmap option_fmap option_map]. unfold expired, readCompletes.
  case_bool_decide as Hexp.
  - rewrite decide_True by done. cbn [negb andb].
    destruct (templateThrows k); cbn [snd]; [done|].
    rewrite counters_miss.
    pose proof (delete_counters k now m) as Hd. unfold counters in Hd.
    by injection Hd as -> ->.
  - rewrite decide_False by done. cbn [negb andb].
    destruct (blobs (disk m) !! ck) as [[cd|]|];
      [|done|by destruct (templateThrows k)].
    cbn zeta. case_bool_decide as Hstr.
    + rewrite decide_True by done. by destruct (templateThrows k).
    + rewrite decide_False by done. cbn [orb]. unfold decode.
      destruct (JSON_parse rt _) as [v|] eqn:Hp.
      * rewrite bool_decide_true by done. by destruct (templateThrows k).
      * rewrite bool_decide_false; [done|]. by intros [? ?].
Qed.

Lemma sweep_counters now m :
  counters (cleanupExpired now m).2 = counters m.
Proof.
  unfold cleanupExpired.
  match goal with |- context [foldl ?f ?a ?l] =>
    assert (cacheStats (foldl f a l).2 = cacheStats m) as Hinv;
    [|destruct (foldl f a l) as [[c s] m1]] end.
  { apply (foldl_invariant (fun acc => cacheStats acc.2 = cacheStats m));
      [done|].
    intros acc e <-. case_decide; [apply removeEntry_stats|done]. }
  cbn [snd] in Hinv. unfold counters.
  destruct (decide (c > 0)); cbn [snd]; [|by rewrite Hinv].
  unfold set_lastCleanup. cbn [cacheStats with_stats hits misses].
  rewrite saveCacheIndex_stats. cbn. by rewrite Hinv.
Qed.

Lemma evict_counters now m :
  counters (cleanupOversized now m).2 = counters m.
Proof.
  unfold cleanupOversized. case_decide; [done|].
  match goal with |- context [evictLoop ?x ?l ?a] =>
    assert (cacheStats (evictLoop x l a).2 = cacheStats m) as Hinv;
    [|destruct (evictLoop x l a) as [[c s] m1]] end.
  { apply (evictLoop_invariant (fun acc => cacheStats acc.2 = cacheStats m));
      [done|].
    intros e acc <-. apply removeEntry_stats. }
  cbn [snd] in Hinv. unfold counters.
  destruct (decide (c > 0)); cbn [snd]; [|by rewrite Hinv].
  rewrite saveCacheIndex_stats. cbn. by rewrite Hinv.
Qed.

Lemma cleanup_counters now m : counters (cleanup now m).2 = counters m.
Proof.
  unfold cleanup.
  pose proof (sweep_counters now m) as H1.
  destruct (cleanupExpired now m) as [[c1 s1] m1]. cbn [snd] in H1.
  pose proof (evict_counters now m1) as H2.
  destruct (cleanupOversized now m1) as [[c2 s2] m2]. cbn [snd] in *.
  congruence.
Qed.

Lemma clear_counters now m : counters (clear now m).2 = (0, 0).
Proof.
  unfold clear. destruct (foldl unlinkEntry _ _) as [c d]. cbn [snd].
  unfold counters. by rewrite saveCacheIndex_stats.
Qed.

End Counters.

(** C6, as the code has it.  A [get] whose key converts to a string
    moves exactly one of the two counters, by exactly one: [hits] when
    the entry is found, has not expired, its blob file is read and
    parsed, and the bytes handed over by the decoder are a string entry
    or are accepted by [JSON.parse]; [misses] in every other case,
    absence, expiry and consistency repair among them.  A codec stage
    that cannot be reversed does not turn the read into a miss: the
    decoder hands over the bytes as they are.  Hence after N such calls
    of [get] the counters have grown by the numbers of hit and of miss
    outcomes, and their sum by N. *)
Theorem C6_stats_accounting (rt : Runtime) :
  (forall k now m,
     templateThrows k = false ->
     let s := cacheStats m in
     let s' := cacheStats (get rt k now m).2 in
     if expectedHit rt k now m
     then hits s' = hits s + 1 /\ misses s' = misses s
     else hits s' = hits s /\ misses s' = misses s + 1) /\
  (forall calls m,
     Forall (fun c : Z * jsval => templateThrows c.2 = false) calls ->
     let s := cacheStats m in
     let s' := cacheStats (gets rt calls m) in
     hits s' = hits s + countOf true (outcomes rt calls m) /\
     misses s' = misses s + countOf false (outcomes rt calls m) /\
     hits s' + misses s' = hits s + misses s + Z.of_nat (length calls)).
Proof.
  assert (forall k now m,
     templateThrows k = false ->
     let s := cacheStats m in
     let s' := cacheStats (get rt k now m).2 in
     if expectedHit rt k now m
     then hits s' = hits s + 1 /\ misses s' = misses s
     else hits s' = hits s /\ misses s' = misses s + 1) as Hone.
  { intros k now m Hk. pose proof (get_counters rt k now m) as Hc.
    unfold counters in Hc. rewrite Hk in Hc. cbn zeta.
    destruct (expectedHit rt k now m); by injection Hc as -> ->. }
  split; [exact Hone|].
  intros calls. induction calls as [|[now k] calls IH]; intros m Hks.
  - unfold countOf. cbn. lia.
  - apply Forall_cons in Hks as [Hk Hks].
    specialize (IH (get rt k now m).2 Hks). specialize (Hone k now m Hk).
    cbn zeta in *. unfold gets in *. cbn [foldl outcomes fst snd] in *.
    unfold countOf in *. rewrite !filter_cons.
    destruct IH as (Hh & Hm & Hsum).
    destruct (expectedHit rt k now m); destruct Hone as [Hh1 Hm1];
      [rewrite decide_True by done; rewrite decide_False by done
      |rewrite decide_False by done; rewrite decide_True by done];
      cbn [length]; lia.
Qed.

Lemma C6_stats_accounting_witness :
  Forall (fun c : Z * jsval => templateThrows c.2 = false)
    [(1, JStr "k"); (2, JStr "absent"); (3, JNum 7)] /\
  hits (cacheStats
          (gets sampleRuntime
             [(1, JStr "k"); (2, JStr "absent"); (3, JNum 7)]
             writtenManager)) = 1 /\
  misses (cacheStats
            (gets sampleRuntime
               [(1, JStr "k"); (2, JStr "absent"); (3, JNum 7)]
               writtenManager)) = 2.
Proof.
  assert (Forall (fun c : Z * jsval => templateThrows c.2 = false)
            [(1, JStr "k"); (2, JStr "absent"); (3, JNum 7)]) as Hks
    by (repeat constructor).
  split; [exact Hks|].
  destruct (proj2 (C6_stats_accounting sampleRuntime) _ writtenManager Hks)
    as (Hh & Hm & _).
  split; (etrans; [eassumption|vm_compute; reflexivity]).
Defined.

(** C6 fails as stated.  The blob of entry k is flagged as compressed
    and its bytes are not a gzip stream, so decoding does not succeed
    and the specified outcome is a miss; [get] counts a hit. *)
Lemma C6_failed_decoding_is_counted_as_hit :
  expectedHit sampleRuntime (JStr "k") 1 corruptManager = true /\
  specifiedHit sampleRuntime (JStr "k") 1 corruptManager = false /\
  hits (cacheStats (get sampleRuntime (JStr "k") 1 corruptManager).2)
    = hits (cacheStats corruptManager) + 1 /\
  misses (cacheStats (get sampleRuntime (JStr "k") 1 corruptManager).2)
    = misses (cacheStats corruptManager).
Proof. vm_compute. done. Qed.

(** C7, as the code has it: across [set], [get], [has], [delete],
    [cleanupExpired], [cleanupOversized], [cleanup] and [getStats] the
    counters [hits] and [misses] never decrease; [clear] sets both back
    to zero. *)
Theorem C7_counters_monotone_until_clear (rt : Runtime) (now : Z)
    (c : Call) (m : Manager) :
  let s := cacheStats m in
  let s' := cacheStats (perform rt now c m) in
  match c with
  | CallClear => hits s' = 0 /\ misses s' = 0
  | _ => hits s <= hits s' /\ misses s <= misses s'
  end.
Proof.
  cbn zeta. destruct c as [k d t|k|k|k| | | | |]; cbn [perform].
  - pose proof (set_counters rt k d t now m) as H.
    injection H as -> ->. lia.
  - pose proof (get_counters rt k now m) as H. unfold counters in H.
    destruct (expectedHit rt k now m), (templateThrows k);
      injection H as -> ->; lia.
  - pose proof (has_counters rt k now m) as H. injection H as -> ->. lia.
  - pose proof (delete_counters rt k now m) as H. injection H as -> ->. lia.
  - pose proof (sweep_counters now m) as H. injection H as -> ->. lia.
  - pose proof (evict_counters now m) as H. injection H as -> ->. lia.
  - pose proof (cleanup_counters now m) as H. injection H as -> ->. lia.
  - pose proof (clear_counters now m) as H. by injection H as -> ->.
  - cbn. lia.
Qed.

(** C7 fails as stated: after one hit, [clear] brings [hits] from 1
    back to 0. *)
Lemma C7_clear_decreases_hits :
  hits (cacheStats usedManager) = 1 /\
  ~ (hits (cacheStats usedManager)
     <= hits (cacheStats (perform sampleRuntime 2 CallClear usedManager))).
Proof.
  assert (hits (cacheStats usedManager) = 1) as H1 by (vm_compute; done).
  assert (hits (cacheStats (perform sampleRuntime 2 CallClear usedManager))
          = 0) as H0 by (vm_compute; done).
  rewrite H1, H0. split; [done|lia].
Qed.

(** ** Cache keys *)

Section Keys.
Variable rt : Runtime.

(** What [set] stores once the key and the value serialise and the
    blob file can be written.  It answers [true] unless its last
    message cannot be printed. *)
Lemma set_stored k d t now m ck pd :
  generateCacheKey rt k = Normal ck ->
  processData rt d = Some pd ->
  ck ∉ readonlyBlobs (disk m) ->
  let enc := encode rt (config m) pd in
  let md :=
    {| key := k; cacheKey := ck; timestamp := now;
       ttl := effectiveTtl (config m) t;
       expiresAt := now + effectiveTtl (config m) t;
       size := Z.of_nat (String.length enc.1.1);
       isCompressed := enc.1.2; isEncrypted := enc.2;
       dataType := typeof d; version := "1.0" |} in
  let r := set rt k d t now m in
  r.1 = negb (templateThrows k) /\
  cacheIndex r.2 = Map_set ck md (cacheIndex m) /\
  blobs (disk r.2) =
    <[ck := Parsed {| metadata := md; data := enc.1.1 |}]> (blobs (disk m)) /\
  readonlyBlobs (disk r.2) = readonlyBlobs (disk m) /\
  indexReadonly (disk r.2) = indexReadonly (disk m) /\
  config r.2 = config m /\
  counters r.2 = counters m /\
  statsFresh r.2.
Proof.
  intros Hk Hpd Hro. cbn zeta. unfold set. rewrite Hk, Hpd.
  destruct (encode rt (config m) pd) as [[enc isC] isE] eqn:Henc.
  rewrite decide_False by done. cbn [fst snd].
  destruct (templateThrows k); cbn [fst snd negb].
  all: rewrite ?saveCacheIndex_index, ?saveCacheIndex_blobs,
         ?saveCacheIndex_readonly, ?saveCacheIndex_config,
         ?saveCacheIndex_indexReadonly.
  all: split_and!; try done.
  all: try (unfold counters; by rewrite saveCacheIndex_stats).
  all: unfold statsFresh; by rewrite saveCacheIndex_stats, saveCacheIndex_index.
Qed.

(** A [set] that stores nothing leaves the instance as it was. *)
Lemma set_cases k d t now m :
  set rt k d t now m = (false, m) \/
  exists ck pd,
    generateCacheKey rt k = Normal ck /\
    processData rt d = Some pd /\
    ck ∉ readonlyBlobs (disk m).
Proof.
  unfold set. destruct (generateCacheKey rt k) as [ck|]; [|by left].
  destruct (processData rt d) as [pd|]; [|by left].
  destruct (encode rt (config m) pd) as [[enc isC] isE].
  case_decide as Hro; [by left|]. right. by exists ck, pd.
Qed.

(** What a successful [set] did. *)
Lemma set_success k d t now m m' :
  set rt k d t now m = (true, m') ->
  exists ck pd md enc,
    generateCacheKey rt k = Normal ck /\
    processData rt d = Some pd /\
    (ck ∉ readonlyBlobs (disk m)) /\
    encode rt (config m) pd = (enc, isCompressed md, isEncrypted md) /\
    key md = k /\ cacheKey md = ck /\ timestamp md = now /\
    expiresAt md = now + effectiveTtl (config m) t /\
    dataType md = typeof d /\
    cacheIndex m' = Map_set ck md (cacheIndex m) /\
    blobs (disk m') =
      <[ck := Parsed {| metadata := md; data := enc |}]> (blobs (disk m)) /\
    readonlyBlobs (disk m') = readonlyBlobs (disk m) /\
    config m' = config m /\
    statsFresh m' /\
    templateThrows k = false.
Proof.
  intros Hset.
  destruct (set_cases k d t now m) as [Hf|(ck & pd & Hk & Hpd & Hro)];
    [congruence|].
  destruct (set_stored k d t now m ck pd Hk Hpd Hro)
    as (H1 & Hi & Hb & Hr & _ & Hc & _ & Hfresh).
  rewrite Hset in *. cbn [fst snd] in *.
  destruct (encode rt (config m) pd) as [[enc isC] isE] eqn:Henc.
  cbn [fst snd] in *.
  eexists ck, pd, _, enc. split_and!; try eassumption; try reflexivity.
  - exact Henc.
  - by destruct (templateThrows k).
Qed.






End Keys.



(** ** Expiry *)

Section Expiry.
Variable rt : Runtime.

Lemma typeof_string v : typeof v = "string" -> exists s, v = JStr s.
Proof. destruct v; try done. by eexists. Qed.

(** [get] on an entry that has not expired and whose blob is there,
    under a key that can be printed. *)
Lemma get_present k now m ck md cd :
  templateThrows k = false ->
  generateCacheKey rt k = Normal ck ->
  Map_get ck (cacheIndex m) = Some md ->
  ~ now > expiresAt md ->
  blobs (disk m) !! ck = Some (Parsed cd) ->
  let decoded :=
    decode rt (config m) (data cd) (isCompressed md) (isEncrypted md) in
  get rt k now m =
    if decide (dataType md = "string") then (JStr decoded, hit m)
    else match JSON_parse rt decoded with
         | Some result => (result, hit m)
         | None => (JNull, miss m)
         end.
Proof.
  intros Hp Hk Hmd Hexp Hb. unfold get. rewrite Hk, Hmd, Hp.
  rewrite decide_False by done. rewrite Hb. cbn zeta.
  case_decide; [done|]. by destruct (JSON_parse rt _).
Qed.

(** [get] on an expired entry whose blob can be unlinked, under a key
    that can be printed. *)
Lemma get_expired k now m ck md :
  templateThrows k = false ->
  generateCacheKey rt k = Normal ck ->
  Map_get ck (cacheIndex m) = Some md ->
  now > expiresAt md ->
  ck ∉ readonlyBlobs (disk m) ->
  (get rt k now m).1 = JNull /\
  Map_get ck (cacheIndex (get rt k now m).2) = None /\
  blobs (disk (get rt k now m).2) !! ck = None.
Proof.
  intros Hp Hk Hmd Hexp Hro. unfold get. rewrite Hk, Hmd, Hp.
  rewrite decide_True by done. cbn [fst snd].
  unfold delete. rewrite Hk, Hmd, Hp.
  assert (forall m', Map_get ck (Map_delete ck (cacheIndex m')) = None)
    as Hgone by (intros; rewrite Map_get_delete; by rewrite decide_True).
  destruct (blobs (disk m) !! ck) eqn:Hb.
  - rewrite decide_False by done. cbn [snd].
    split; [done|]. unfold miss. cbn [cacheIndex disk with_stats].
    rewrite saveCacheIndex_index, saveCacheIndex_blobs.
    split; [apply Hgone|apply lookup_delete_eq].
  - cbn [snd]. split; [done|]. unfold miss. cbn [cacheIndex disk with_stats].
    rewrite saveCacheIndex_index, saveCacheIndex_blobs.
    split; [apply Hgone|done].
Qed.

(** A successful [set] followed by a [get] before expiry. *)
Lemma get_after_set k v t now now' m m1 :
  gunzip_inverts_gzip rt ->
  decipher_inverts_cipher rt ->
  jsonRoundTrips rt v ->
  set rt k v t now m = (true, m1) ->
  ~ now' > now + effectiveTtl (config m) t ->
  get rt k now' m1 = (v, hit m1).
Proof.
  intros Hz Hc Hjson Hset Hfresh.
  apply set_success in Hset
    as (ck & pd & md & enc & Hk & Hpd & Hro & Henc & _ & _ & _ & Hexp
        & Hdt & Hi & Hb & _ & Hcfg & _ & Hp).
  pose proof (decode_encode rt (config m) pd Hz Hc) as Hrt.
  rewrite Henc in Hrt.
  rewrite (get_present k now' m1 ck md {| metadata := md; data := enc |});
    [|done|done| | |].
  - cbn [data]. rewrite Hcfg, Hrt.
    destruct (decide (dataType md = "string")) as [Hs|Hs].
    + rewrite Hdt in Hs. apply typeof_string in Hs as [s ->].
      cbn in Hpd. by injection Hpd as ->.
    + assert (JSON_parse rt pd = Some v) as ->; [|done].
      rewrite Hdt in Hs. destruct v; try done; by apply Hjson.
  - rewrite Hi, Map_get_set. by rewrite decide_True.
  - by rewrite Hexp.
  - rewrite Hb. apply lookup_insert_eq.
Qed.

End Expiry.

(** C4. TTL boundary: after a successful [set(k, v, {ttl: 1000})] at
    time [t], [get(k)] at [t + 999] returns [v]; [get(k)] at [t + 1001],
    whether or not the first [get] was made, returns [null] and leaves
    neither the index entry nor the blob of [k]. *)
Theorem C4_ttl_boundary (rt : Runtime) (k v : jsval) (t : Z)
    (m m1 : Manager) (ck : string) :
  gunzip_inverts_gzip rt ->
  decipher_inverts_cipher rt ->
  jsonRoundTrips rt v ->
  generateCacheKey rt k = Normal ck ->
  set rt k v (Some 1000) t m = (true, m1) ->
  (get rt k (t + 999) m1).1 = v /\
  forall m2, m2 = m1 \/ m2 = (get rt k (t + 999) m1).2 ->
    (get rt k (t + 1001) m2).1 = JNull /\
    Map_get ck (cacheIndex (get rt k (t + 1001) m2).2) = None /\
    blobs (disk (get rt k (t + 1001) m2).2) !! ck = None.
Proof.
  intros Hz Hc Hjson Hk Hset.
  assert (get rt k (t + 999) m1 = (v, hit m1)) as Hget.
  { eapply get_after_set; try done.
    unfold effectiveTtl. rewrite decide_False by lia. lia. }
  rewrite Hget. split; [done|].
  apply set_success in Hset
    as (ck' & pd & md & enc & Hk' & _ & Hro & _ & _ & _ & _ & Hexp
        & _ & Hi & _ & Hro' & _ & _ & Hp).
  assert (ck' = ck) as -> by congruence.
  assert (Map_get ck (cacheIndex m1) = Some md) as Hmd.
  { rewrite Hi, Map_get_set. by rewrite decide_True. }
  unfold effectiveTtl in Hexp. rewrite decide_False in Hexp by lia.
  intros m2 [->| ->]; apply (get_expired rt k (t + 1001) _ ck md);
    try done; try lia; cbn [snd hit disk with_stats]; by rewrite Hro'.
Qed.

Lemma C4_ttl_boundary_witness :
  let m1 := (set sampleRuntime (JStr "k") (JBool true) (Some 1000) 5000
               freshManager).2 in
  set sampleRuntime (JStr "k") (JBool true) (Some 1000) 5000 freshManager
    = (true, m1) /\
  (get sampleRuntime (JStr "k") 5999 m1).1 = JBool true /\
  (get sampleRuntime (JStr "k") 6001 m1).1 = JNull.
Proof.
  intros m1.
  assert (set sampleRuntime (JStr "k") (JBool true) (Some 1000) 5000
            freshManager = (true, m1)) as Hset by (vm_compute; reflexivity).
  assert (jsonRoundTrips sampleRuntime (JBool true)) as Hjson
    by (intros s [= <-]; reflexivity).
  destruct (C4_ttl_boundary sampleRuntime (JStr "k") (JBool true) 5000
              freshManager m1 "k" sampleRuntime_gunzip
              sampleRuntime_decipher Hjson eq_refl Hset) as [H999 H1001].
  split; [exact Hset|]. split; [exact H999|].
  exact (proj1 (H1001 m1 (or_introl eq_refl))).
Defined.

(** ** Decoding on the read path *)

(** C3 fails as stated: the entry is recorded as compressed, its bytes
    cannot be gunzipped, and [get] returns those bytes as the value and
    counts a hit. *)
Lemma C3_failed_gunzip_is_returned_as_hit :
  (exists md, Map_get "k" (cacheIndex corruptManager) = Some md /\
              isCompressed md = true /\ dataType md = "string") /\
  compressionEnabled (config corruptManager) = true /\
  gunzip_base64 sampleRuntime "garbage" = None /\
  get sampleRuntime (JStr "k") 1 corruptManager
    = (JStr "garbage", hit corruptManager).
Proof.
  split_and!; [|reflexivity|reflexivity|vm_compute; reflexivity].
  eexists. split_and!; [vm_compute; reflexivity|reflexivity|reflexivity].
Qed.

(** C3, as the code has it: on the read path a stage is reversed when
    its recorded flag is set and the stage is enabled in the
    configuration; when the reversal throws, the bytes go on unchanged,
    with a warning only.  Under a key that converts to a string, the
    entry is then returned as a hit when it is a string, or when
    [JSON.parse] accepts the outcome. *)
Theorem C3_decode_follows_flags_and_falls_back (rt : Runtime) (k : jsval)
    (now : Z) (m : Manager) (ck : string) (md : Metadata) (cd : CacheData) :
  templateThrows k = false ->
  generateCacheKey rt k = Normal ck ->
  Map_get ck (cacheIndex m) = Some md ->
  ~ now > expiresAt md ->
  blobs (disk m) !! ck = Some (Parsed cd) ->
  let cfg := config m in
  let decrypted :=
    if isEncrypted md && encryptionEnabled cfg
    then default (data cd) (decipher_utf8 rt (encryptionKey cfg) (data cd))
    else data cd in
  let decompressed :=
    if isCompressed md && compressionEnabled cfg
    then default decrypted (gunzip_base64 rt decrypted)
    else decrypted in
  get rt k now m =
    if decide (dataType md = "string") then (JStr decompressed, hit m)
    else match JSON_parse rt decompressed with
         | Some result => (result, hit m)
         | None => (JNull, miss m)
         end.
Proof.
  intros Hp Hk Hmd Hexp Hb cfg decrypted decompressed.
  rewrite (get_present rt k now m ck md cd Hp Hk Hmd Hexp Hb). cbn zeta.
  assert (decode rt (config m) (data cd) (isCompressed md) (isEncrypted md)
          = decompressed) as ->; [|done].
  unfold decode, decompressData, decryptData, decompressed, decrypted, cfg.
  unfold from_option, id.
  by destruct (isEncrypted md), (encryptionEnabled (config m)),
    (isCompressed md), (compressionEnabled (config m)).
Qed.

Lemma C3_decode_follows_flags_witness :
  get sampleRuntime (JStr "k") 1 corruptManager
    = (JStr "garbage", hit corruptManager).
Proof.
  assert (Map_get "k" (cacheIndex corruptManager)
          = Some {| key := JStr "k"; cacheKey := "k"; timestamp := 0;
                    ttl := 604800000; expiresAt := 604800000; size := 5;
                    isCompressed := true; isEncrypted := false;
                    dataType := "string"; version := "1.0" |}) as Hmd
    by (vm_compute; reflexivity).
  assert (blobs (disk corruptManager) !! "k"
          = Some (Parsed {| metadata :=
                    {| key := JStr "k"; cacheKey := "k"; timestamp := 0;
                       ttl := 604800000; expiresAt := 604800000; size := 5;
                       isCompressed := true; isEncrypted := false;
                       dataType := "string"; version := "1.0" |};
                            data := "garbage" |})) as Hb
    by (vm_compute; reflexivity).
  assert (~ 1 > 604800000) as Hexp by lia.
  exact (C3_decode_follows_flags_and_falls_back sampleRuntime (JStr "k") 1
           corruptManager "k" _ _ eq_refl eq_refl Hmd Hexp Hb).
Defined.

(** ** Persisting the index *)

Section Persist.
Variable rt : Runtime.

(** [delete], and with it the expiry path of [get], saves the index. *)
Lemma delete_persists k now m m' :
  indexReadonly (disk m) = false ->
  delete rt k now m = (true, m') ->
  persistedIndex m' = Some (cacheIndex m').
Proof.
  intros Hidx. unfold delete.
  destruct (generateCacheKey rt k) as [ck|]; [|done].
  destruct (Map_get ck (cacheIndex m)); [|done].
  destruct (blobs (disk m) !! ck).
  - case_decide; [done|]. destruct (templateThrows k); [done|].
    intros [= <-]. unfold saveCacheIndex. cbn. by rewrite Hidx.
  - destruct (templateThrows k); [done|].
    intros [= <-]. unfold saveCacheIndex. cbn. by rewrite Hidx.
Qed.

Lemma set_persists k d t now m m' :
  indexReadonly (disk m) = false ->
  set rt k d t now m = (true, m') ->
  persistedIndex m' = Some (cacheIndex m').
Proof.
  intros Hidx. unfold set.
  destruct (generateCacheKey rt k) as [ck|]; [|done].
  destruct (processData rt d); [|done].
  destruct (encode rt (config m) _) as [[enc isC] isE].
  case_decide; [done|]. destruct (templateThrows k); [done|].
  intros [= <-]. unfold saveCacheIndex. cbn. by rewrite Hidx.
Qed.

(** The expiry path of [get] goes through [delete] and so saves too
    (under a key that can be printed; otherwise [get] stops before
    [delete]). *)
Lemma get_expiry_persists k now m ck md :
  templateThrows k = false ->
  indexReadonly (disk m) = false ->
  generateCacheKey rt k = Normal ck ->
  Map_get ck (cacheIndex m) = Some md ->
  now > expiresAt md ->
  ck ∉ readonlyBlobs (disk m) ->
  persistedIndex (get rt k now m).2 = Some (cacheIndex (get rt k now m).2).
Proof.
  intros Hp Hidx Hk Hmd Hexp Hro. unfold get. rewrite Hk, Hmd, Hp.
  rewrite decide_True by done. cbn [snd].
  assert (exists m', delete rt k now m = (true, m')) as [m' Hd].
  { unfold delete. rewrite Hk, Hmd, Hp.
    destruct (blobs (disk m) !! ck); [|by eexists].
    rewrite decide_False by done. by eexists. }
  rewrite Hd. cbn [snd]. by apply (delete_persists k now m m').
Qed.

(** A sweep that removed something saves the index. *)
Lemma cleanupExpired_persists now m :
  wellFormed m ->
  (cleanupExpired now m).2 = m \/
  persistedIndex (cleanupExpired now m).2
    = Some (cacheIndex (cleanupExpired now m).2).
Proof.
  intros Hwf. unfold cleanupExpired.
  match goal with |- context [foldl ?f ?a ?l] =>
    assert (sweepInv m (foldl f a l)) as Hs;
    [|destruct (foldl f a l) as [[c s] m1]] end.
  { apply foldl_invariant; [by apply sweepInv_start|].
    intros acc e Hacc. case_decide; [by apply removeEntry_sweepInv|done]. }
  destruct Hs as (Hio & _ & _ & _ & Hc & Hsame). cbn [fst snd] in *.
  destruct (decide (c > 0)) as [Hpos|Hz]; cbn [snd].
  - right. rewrite saveCacheIndex_ok by done. done.
  - left. apply Hsame. lia.
Qed.

Lemma cleanupOversized_persists now m :
  wellFormed m ->
  (cleanupOversized now m).2 = m \/
  persistedIndex (cleanupOversized now m).2
    = Some (cacheIndex (cleanupOversized now m).2).
Proof.
  intros Hwf. unfold cleanupOversized. case_decide; [by left|].
  match goal with |- context [evictLoop ?x ?l ?a] =>
    pose proof (evictLoop_invariant (sweepInv m) x l a
                  (sweepInv_start m Hwf) (removeEntry_sweepInv m)) as Hs;
    destruct (evictLoop x l a) as [[c s] m1] end.
  destruct Hs as (Hio & _ & _ & _ & Hc & Hsame). cbn [fst snd] in *.
  destruct (decide (c > 0)) as [Hpos|Hz]; cbn [snd].
  - right. rewrite saveCacheIndex_ok by done. done.
  - left. apply Hsame. lia.
Qed.

Lemma clear_persists now m :
  indexReadonly (disk m) = false ->
  persistedIndex (clear now m).2 = Some (cacheIndex (clear now m).2).
Proof.
  intros Hidx. unfold clear.
  assert (indexReadonly (foldl unlinkEntry (0, disk m) (cacheIndex m)).2
          = false) as Hidx'.
  { apply (foldl_invariant (fun acc => indexReadonly acc.2 = false));
      [done|].
    intros [c d] e Hacc. unfold unlinkEntry. cbn [snd] in *.
    destruct (blobs d !! e.1); [|done]. by case_decide. }
  destruct (foldl unlinkEntry (0, disk m) (cacheIndex m)) as [c d].
  cbn [snd] in *. unfold saveCacheIndex. cbn. by rewrite Hidx'.
Qed.

(** The repair path of [get], for an index entry without a blob, drops
    the entry and saves nothing: snapshot and cached totals stay as
    they were.  Under a key that cannot be printed the entry stays
    too. *)
Lemma get_repair k now m ck md :
  generateCacheKey rt k = Normal ck ->
  Map_get ck (cacheIndex m) = Some md ->
  ~ now > expiresAt md ->
  blobs (disk m) !! ck = None ->
  get rt k now m =
    (JNull,
     miss (if templateThrows k then m
           else with_index m (Map_delete ck (cacheIndex m)))).
Proof.
  intros Hk Hmd Hexp Hb. unfold get. rewrite Hk, Hmd.
  rewrite decide_False by done. rewrite Hb. by destruct (templateThrows k).
Qed.

End Persist.

(** C8 on the repair path of [get]: the index loaded from the snapshot
    names a blob that is missing; [get] removes the entry from the
    index in memory and returns, and the snapshot on disk still lists
    the entry. *)
Theorem C8_repair_path_is_not_persisted :
  let m' := (get sampleRuntime (JStr "k") 1 staleManager).2 in
  persistedIndex staleManager = Some (cacheIndex staleManager) /\
  is_Some (Map_get "k" (cacheIndex staleManager)) /\
  cacheIndex m' = [] /\
  persistedIndex m' = persistedIndex staleManager /\
  persistedIndex m' <> Some (cacheIndex m') /\
  totalFiles (cacheStats m') = 1.
Proof.
  cbn zeta.
  assert (cacheIndex (get sampleRuntime (JStr "k") 1 staleManager).2 = [])
    as Hi by (vm_compute; reflexivity).
  assert (persistedIndex (get sampleRuntime (JStr "k") 1 staleManager).2
          = persistedIndex staleManager) as Hp by (vm_compute; reflexivity).
  assert (persistedIndex staleManager = Some (cacheIndex staleManager))
    as Hs by (vm_compute; reflexivity).
  split_and!;
    [exact Hs | vm_compute; by eexists | exact Hi | exact Hp
    | rewrite Hp, Hs, Hi; vm_compute; by intros [=]
    | vm_compute; reflexivity].
Qed.

(** ** Eviction by size *)

Section Eviction.

Lemma insertByTimestamp_perm e l : insertByTimestamp e l ≡ₚ e :: l.
Proof.
  induction l as [|e' l IH]; [done|]. cbn [insertByTimestamp].
  case_decide; [done|]. rewrite IH. apply Permutation_swap.
Qed.

Lemma sortByTimestamp_perm l : sortByTimestamp l ≡ₚ l.
Proof.
  induction l as [|e l IH]; [done|].
  unfold sortByTimestamp in *. cbn [foldr].
  by rewrite insertByTimestamp_perm, IH.
Qed.

Lemma insertByTimestamp_sorted e l :
  StronglySorted olderOrSame l ->
  StronglySorted olderOrSame (insertByTimestamp e l).
Proof.
  induction l as [|e' l IH]; intros Hs; cbn [insertByTimestamp].
  - apply StronglySorted_cons. split; [done|constructor].
  - apply StronglySorted_cons in Hs as [Hall Hs]. case_decide as Hle.
    + apply StronglySorted_cons. split.
      * constructor; [done|].
        eapply Forall_impl; [exact Hall|]. unfold olderOrSame in *.
        intros x Hx. lia.
      * by apply StronglySorted_cons.
    + apply StronglySorted_cons. split; [|by apply IH].
      rewrite insertByTimestamp_perm. constructor; [|done].
      unfold olderOrSame. lia.
Qed.

Lemma sortByTimestamp_sorted l :
  StronglySorted olderOrSame (sortByTimestamp l).
Proof.
  induction l as [|e l IH]; [constructor|].
  unfold sortByTimestamp in *. cbn [foldr].
  by apply insertByTimestamp_sorted.
Qed.

Lemma sumSizes_app l1 l2 : sumSizes (l1 ++ l2) = sumSizes l1 + sumSizes l2.
Proof.
  induction l1 as [|e l1 IH]; [done|].
  cbn [app]. unfold sumSizes in *. cbn [foldr]. rewrite IH. lia.
Qed.

Lemma sumSizes_perm l1 l2 : l1 ≡ₚ l2 -> sumSizes l1 = sumSizes l2.
Proof.
  induction 1 as [|x l1 l2 _ IH|x y l|l1 l2 l3 _ IH1 _ IH2];
    unfold sumSizes in *; cbn [foldr]; lia.
Qed.

Lemma filter_keep_all (l : Index) :
  filter (fun e => e.1 ∉ ([] : list string)) l = l.
Proof.
  induction l as [|e l IH]; [done|].
  rewrite filter_cons_True by apply not_elem_of_nil. by rewrite IH.
Qed.

Lemma filter_keys_none (l : Index) (ks : list string) :
  (forall e, e ∈ l -> e.1 ∈ ks) -> filter (fun e => e.1 ∉ ks) l = [].
Proof.
  induction l as [|e l IH]; intros Hin; [done|].
  rewrite filter_cons_False by (intros Hn; apply Hn, Hin; by left).
  apply IH. intros e' He'. apply Hin. by right.
Qed.

Lemma filter_keys_all (l : Index) (ks : list string) :
  (forall e, e ∈ l -> e.1 ∉ ks) -> filter (fun e => e.1 ∉ ks) l = l.
Proof.
  induction l as [|e l IH]; intros Hout; [done|].
  rewrite filter_cons_True by (apply Hout; by left).
  rewrite IH; [done|]. intros e' He'. apply Hout. by right.
Qed.

(** The loop removes a prefix of the sorted entries, the shortest one
    that brings the running total within the budget. *)
Lemma evictLoop_prefix maxSize l : forall c s m,
  ioSucceeds (disk m) ->
  NoDup l.*1 ->
  (forall e, e ∈ l -> is_Some (blobs (disk m) !! e.1)) ->
  exists ev kp m',
    l = ev ++ kp /\
    evictLoop maxSize l (c, s, m)
      = (c + Z.of_nat (length ev), s + sumSizes ev, m') /\
    cacheIndex m' = filter (fun e => e.1 ∉ ev.*1) (cacheIndex m) /\
    (forall k, blobs (disk m') !! k =
               if decide (k ∈ ev.*1) then None else blobs (disk m) !! k) /\
    ioSucceeds (disk m') /\
    cacheStats m' = cacheStats m /\ config m' = config m /\
    (kp = [] \/ totalSize (cacheStats m) - (s + sumSizes ev) <= maxSize) /\
    (forall p, p `prefix_of` ev -> p <> ev ->
       ~ totalSize (cacheStats m) - (s + sumSizes p) <= maxSize).
Proof.
  induction l as [|e l IH]; intros c s m Hio Hnd Hblobs.
  - exists [], [], m. cbn [evictLoop length app fmap list_fmap].
    split_and!; try done.
    + cbn. by rewrite !Z.add_0_r.
    + by rewrite filter_keep_all.
    + by left.
    + intros p Hp%prefix_nil_inv. done.
  - cbn [evictLoop].
    destruct (decide (totalSize (cacheStats m) - s <= maxSize)) as [Hfit|Hover].
    + exists [], (e :: l), m. cbn [length app fmap list_fmap].
      split_and!; try done.
      * cbn. by rewrite !Z.add_0_r.
      * by rewrite filter_keep_all.
      * right. cbn. lia.
      * intros p Hp%prefix_nil_inv. done.
    + destruct (removeEntry_ok e c s m Hio)
        as (m1 & Hstep & Hi1 & Hb1 & _ & Hio1 & Hst1 & Hcfg1).
      destruct (Hblobs e) as [b Hb]; [by left|]. rewrite Hb in Hstep.
      rewrite Hstep. rewrite fmap_cons in Hnd.
      apply NoDup_cons in Hnd as [Hfresh Hnd].
      destruct (IH (c + 1) (s + size e.2) m1 Hio1 Hnd)
        as (ev & kp & m' & -> & Hrun & Hi & Hb' & Hio' & Hst & Hcfg
            & Hstop & Hmin).
      { intros e' He'. rewrite Hb1, lookup_delete_ne; [apply Hblobs; by right|].
        intros Heq. apply Hfresh. rewrite Heq.
        by apply list_elem_of_fmap_2. }
      exists (e :: ev), kp, m'. rewrite Hst1 in *.
      assert (sumSizes (e :: ev) = size e.2 + sumSizes ev) as Hsum by done.
      split_and!; try done; try congruence.
      * rewrite Hrun, Hsum.
        replace (c + 1 + Z.of_nat (length ev))
          with (c + Z.of_nat (length (e :: ev))) by (cbn [length]; lia).
        by rewrite Z.add_assoc.
      * rewrite Hi, Hi1. unfold Map_delete. rewrite list_filter_filter.
        apply list_filter_iff. intros x. rewrite fmap_cons, not_elem_of_cons.
        tauto.
      * intros k. rewrite Hb', Hb1, fmap_cons, lookup_delete.
        destruct (decide (k ∈ ev.*1)) as [Hin|Hnin].
        -- rewrite decide_True; [done|]. by right.
        -- destruct (decide (e.1 = k)) as [<-|Hne].
           ++ rewrite decide_True; [done|]. by left.
           ++ rewrite decide_False; [done|].
              intros [->|?]%elem_of_cons; done.
      * destruct Hstop as [->|Hstop]; [by left|right]. rewrite Hsum. lia.
      * intros p Hp Hneq. destruct p as [|e0 p].
        -- cbn. replace (s + 0) with s by lia. done.
        -- pose proof (prefix_cons_inv_1 _ _ _ _ Hp) as ->.
           apply prefix_cons_inv_2 in Hp.
           assert (sumSizes (e :: p) = size e.2 + sumSizes p) as -> by done.
           replace (s + (size e.2 + sumSizes p))
             with (s + size e.2 + sumSizes p) by lia.
           apply Hmin; [done|]. by intros ->.
Qed.

End Eviction.

(** C5. Size-bound eviction: on a well-formed instance whose recorded
    total size exceeds [maxCacheSize], [cleanupOversized] removes a
    prefix [evicted] of the entries sorted by ascending [timestamp]
    (oldest first, equal timestamps in [Map] order), index entry and
    blob, and stops at the first point where the total fits: no shorter
    prefix would do.  Afterwards [totalSize] is the size of what is
    left and is at most [maxCacheSize], and every evicted entry is at
    least as old as every entry that remains. *)
Theorem C5_oldest_first_eviction (now : Z) (m : Manager) :
  wellFormed m ->
  0 <= maxCacheSize (config m) ->
  totalSize (cacheStats m) > maxCacheSize (config m) ->
  let m' := (cleanupOversized now m).2 in
  exists evicted kept,
    sortByTimestamp (cacheIndex m) = evicted ++ kept /\
    StronglySorted olderOrSame (evicted ++ kept) /\
    (cleanupOversized now m).1
      = (Z.of_nat (length evicted), sumSizes evicted) /\
    cacheIndex m' = filter (fun e => e.1 ∉ evicted.*1) (cacheIndex m) /\
    cacheIndex m' ≡ₚ kept /\
    (forall e, e ∈ evicted -> blobs (disk m') !! e.1 = None) /\
    (forall e r, e ∈ evicted -> r ∈ cacheIndex m' ->
       timestamp e.2 <= timestamp r.2) /\
    totalSize (cacheStats m') = sumSizes (cacheIndex m') /\
    totalSize (cacheStats m') <= maxCacheSize (config m) /\
    (forall p, p `prefix_of` evicted -> p <> evicted ->
       totalSize (cacheStats m) - sumSizes p > maxCacheSize (config m)).
Proof.
  intros (Hio & [Hnd Hiff] & [Hfresh _]) Hmax Hover.
  pose proof (sortByTimestamp_perm (cacheIndex m)) as Hperm.
  pose proof (sortByTimestamp_sorted (cacheIndex m)) as Hsorted.
  assert (NoDup (sortByTimestamp (cacheIndex m)).*1) as Hnd'
    by by rewrite Hperm.
  destruct (evictLoop_prefix (maxCacheSize (config m))
              (sortByTimestamp (cacheIndex m)) 0 0 m Hio Hnd')
    as (ev & kp & m1 & Hsplit & Hrun & Hi & Hb & Hio1 & Hst & Hcfg
        & Hstop & Hmin).
  { intros e He. apply Hiff, Map_get_is_Some.
    rewrite Hperm in He. by apply list_elem_of_fmap_2. }
  rewrite !Z.add_0_l in Hrun.
  (* what is left in the index is [kp] *)
  assert (filter (fun e => e.1 ∉ ev.*1) (cacheIndex m) ≡ₚ kp) as Hleft.
  { rewrite <- Hperm, Hsplit, filter_app.
    rewrite Hsplit, fmap_app in Hnd'.
    apply NoDup_app in Hnd' as (_ & Hdisj & _).
    rewrite filter_keys_none by (intros; by apply list_elem_of_fmap_2).
    rewrite filter_keys_all; [done|].
    intros e He Hin. by apply (Hdisj e.1), list_elem_of_fmap_2. }
  assert (sumSizes (cacheIndex m) = sumSizes ev + sumSizes kp) as Hsum.
  { rewrite <- sumSizes_app, <- Hsplit. symmetry. by apply sumSizes_perm. }
  (* something was removed *)
  assert (0 < Z.of_nat (length ev)) as Hpos.
  { destruct ev as [|e ev]; [|cbn [length]; lia].
    change (sumSizes []) with 0 in *.
    destruct Hstop as [->|Hstop]; [|lia].
    change (sumSizes []) with 0 in Hsum. lia. }
  cbn zeta. unfold cleanupOversized.
  rewrite decide_False by lia. rewrite Hrun.
  rewrite decide_True by lia. cbn [fst snd].
  rewrite saveCacheIndex_index, saveCacheIndex_stats, saveCacheIndex_blobs.
  cbn [cacheIndex cacheStats disk updateCacheStats with_stats totalSize].
  exists ev, kp. rewrite <- Hsplit, Hi.
  split_and!; try done.
  - intros e He. rewrite Hb. rewrite decide_True; [done|].
    by apply list_elem_of_fmap_2.
  - intros e r He Hr. apply list_elem_of_filter in Hr as [Hout Hr].
    rewrite <- Hperm, Hsplit in Hr. apply elem_of_app in Hr as [Hr|Hr].
    + destruct Hout. by apply list_elem_of_fmap_2.
    + rewrite Hsplit in Hsorted.
      by apply (StronglySorted_app_1_elem_of _ _ _ _ _ Hsorted).
  - rewrite (sumSizes_perm _ _ Hleft).
    destruct Hstop as [->|Hstop]; [done|]. lia.
  - intros p Hp Hneq. specialize (Hmin p Hp Hneq). lia.
Qed.

Lemma C5_oldest_first_eviction_witness :
  wellFormed fiveManager /\
  0 <= maxCacheSize (config fiveManager) /\
  totalSize (cacheStats fiveManager) > maxCacheSize (config fiveManager) /\
  totalSize (cacheStats (cleanupOversized 6 fiveManager).2)
    <= maxCacheSize (config fiveManager).
Proof.
  assert (wellFormed fiveManager) as Hwf
    by apply run_wellFormed, newManager_wellFormed.
  assert (0 <= maxCacheSize (config fiveManager)) as Hmax
    by (vm_compute; discriminate).
  assert (totalSize (cacheStats fiveManager)
          > maxCacheSize (config fiveManager)) as Hover
    by (vm_compute; reflexivity).
  split_and!; [exact Hwf|exact Hmax|exact Hover|].
  destruct (C5_oldest_first_eviction 6 fiveManager Hwf Hmax Hover)
    as (ev & kp & _ & _ & _ & _ & _ & _ & _ & _ & Hfit & _).
  exact Hfit.
Defined.

(** The fourth scenario of the specification: of five entries of 30
    bytes under a budget of 100, the sweep removes the two oldest and
    leaves the three written last, 90 bytes. *)
Example scenario_five_entries :
  (cleanupOversized 6 fiveManager).1 = (2, 60) /\
  (cacheIndex (cleanupOversized 6 fiveManager).2).*1 = ["c"; "d"; "e"] /\
  totalSize (cacheStats (cleanupOversized 6 fiveManager).2) = 90.
Proof. vm_compute. done. Qed.

(** * Further properties of the class *)

(** ** What [set] and [delete] report *)

Section Results.
Variable rt : Runtime.

(** A [set] that answers [false] under a key that can be printed has
    stored nothing. *)
Lemma set_false_unchanged k d t now m m' :
  templateThrows k = false ->
  set rt k d t now m = (false, m') -> m' = m.
Proof.
  intros Hp. unfold set. rewrite Hp.
  destruct (generateCacheKey rt k); [|by intros [= <-]].
  destruct (processData rt d); [|by intros [= <-]].
  destruct (encode rt (config m) _) as [[enc isC] isE].
  case_decide; [by intros [= <-]|done].
Qed.

(** What [delete] removes once the entry is there and its blob file can
    be unlinked.  It answers [true] unless its last message cannot be
    printed. *)
Lemma delete_removed k now m ck md :
  generateCacheKey rt k = Normal ck ->
  Map_get ck (cacheIndex m) = Some md ->
  (is_Some (blobs (disk m) !! ck) -> ck ∉ readonlyBlobs (disk m)) ->
  let r := delete rt k now m in
  r.1 = negb (templateThrows k) /\
  cacheIndex r.2 = Map_delete ck (cacheIndex m) /\
  blobs (disk r.2) = base.delete ck (blobs (disk m)) /\
  readonlyBlobs (disk r.2) = readonlyBlobs (disk m) /\
  indexReadonly (disk r.2) = indexReadonly (disk m) /\
  config r.2 = config m /\
  statsFresh r.2.
Proof.
  intros Hk Hmd Hro. cbn zeta. unfold delete. rewrite Hk, Hmd.
  destruct (blobs (disk m) !! ck) as [b|] eqn:Hb.
  - rewrite decide_False by (apply Hro; by eexists).
    destruct (templateThrows k); cbn [fst snd negb].
    all: split_and!; try done;
      rewrite ?saveCacheIndex_index, ?saveCacheIndex_blobs,
        ?saveCacheIndex_readonly, ?saveCacheIndex_config,
        ?saveCacheIndex_indexReadonly; try done.
    all: unfold statsFresh;
      by rewrite saveCacheIndex_stats, saveCacheIndex_index.
  - destruct (templateThrows k); cbn [fst snd negb].
    all: split_and!; try done;
      rewrite ?saveCacheIndex_index, ?saveCacheIndex_blobs,
        ?saveCacheIndex_readonly, ?saveCacheIndex_config,
        ?saveCacheIndex_indexReadonly; try done.
    all: try (cbn; by rewrite delete_id).
    all: unfold statsFresh;
      by rewrite saveCacheIndex_stats, saveCacheIndex_index.
Qed.

(** A [delete] that removes nothing leaves the instance as it was. *)
Lemma delete_cases k now m :
  delete rt k now m = (false, m) \/
  exists ck md,
    generateCacheKey rt k = Normal ck /\
    Map_get ck (cacheIndex m) = Some md /\
    (is_Some (blobs (disk m) !! ck) -> ck ∉ readonlyBlobs (disk m)).
Proof.
  unfold delete. destruct (generateCacheKey rt k) as [ck|]; [|by left].
  destruct (Map_get ck (cacheIndex m)) as [md|] eqn:Hmd; [|by left].
  destruct (blobs (disk m) !! ck) as [b|] eqn:Hb.
  - case_decide as Hro; [by left|]. right. exists ck, md.
    split_and!; [done|done|]. by intros _.
  - right. exists ck, md. split_and!; [done|done|].
    rewrite Hb. by intros [? ?].
Qed.

(** A [delete] that answers [false] under a key that can be printed has
    removed nothing. *)
Lemma delete_false_unchanged k now m m' :
  templateThrows k = false ->
  delete rt k now m = (false, m') -> m' = m.
Proof.
  intros Hp Hd.
  destruct (delete_cases k now m) as [Hf|(ck & md & Hk & Hmd & Hro)];
    [congruence|].
  destruct (delete_removed k now m ck md Hk Hmd Hro) as (H1 & _).
  rewrite Hd, Hp in H1. done.
Qed.

(** What a successful [delete] did. *)
Lemma delete_success k now m m' :
  delete rt k now m = (true, m') ->
  exists ck md,
    generateCacheKey rt k = Normal ck /\
    Map_get ck (cacheIndex m) = Some md /\
    (is_Some (blobs (disk m) !! ck) -> ck ∉ readonlyBlobs (disk m)) /\
    cacheIndex m' = Map_delete ck (cacheIndex m) /\
    blobs (disk m') = base.delete ck (blobs (disk m)) /\
    readonlyBlobs (disk m') = readonlyBlobs (disk m) /\
    indexReadonly (disk m') = indexReadonly (disk m) /\
    config m' = config m /\
    statsFresh m' /\
    templateThrows k = false.
Proof.
  intros Hd.
  destruct (delete_cases k now m) as [Hf|(ck & md & Hk & Hmd & Hro)];
    [congruence|].
  destruct (delete_removed k now m ck md Hk Hmd Hro)
    as (H1 & Hi & Hb & Hr & Hir & Hc & Hfresh).
  rewrite Hd in *. cbn [fst snd] in *.
  exists ck, md. split_and!; try done. by destruct (templateThrows k).
Qed.

End Results.

(** ** Failing file operations *)

Section Failures.
Variable rt : Runtime.

Lemma removeEntry_consistent e acc :
  consistent acc.2 -> consistent (removeEntry e acc).2.
Proof.
  destruct acc as [[c s] m], e as [k md]. cbn [snd]. intros Hc.
  unfold removeEntry. destruct (blobs (disk m) !! k) eqn:Hb.
  - case_decide; [done|]. cbn [snd].
    eapply consistent_delete; [exact Hc|reflexivity|reflexivity].
  - cbn [snd]. eapply consistent_delete; [exact Hc|reflexivity|].
    cbn. by rewrite delete_id.
Qed.

Lemma set_consistent k d t now m :
  consistent m -> consistent (set rt k d t now m).2.
Proof.
  intros Hc.
  destruct (set_cases rt k d t now m) as [->|(ck & pd & Hk & Hpd & Hro)];
    [done|].
  destruct (set_stored rt k d t now m ck pd Hk Hpd Hro) as (_ & Hi & Hb & _).
  eapply consistent_insert; [exact Hc|exact Hi|by eexists].
Qed.

Lemma delete_consistent k now m :
  consistent m -> consistent (delete rt k now m).2.
Proof.
  intros Hc.
  destruct (delete_cases rt k now m) as [->|(ck & md & Hk & Hmd & Hro)];
    [done|].
  destruct (delete_removed rt k now m ck md Hk Hmd Hro) as (_ & Hi & Hb & _).
  by eapply consistent_delete.
Qed.

Lemma get_consistent k now m :
  consistent m -> consistent (get rt k now m).2.
Proof.
  intros Hc. unfold get.
  destruct (generateCacheKey rt k) as [ck|]; [|done].
  destruct (Map_get ck (cacheIndex m)) as [md|]; [|done].
  case_decide.
  { destruct (templateThrows k); cbn [snd]; [done|].
    eapply consistent_same; [by apply (delete_consistent k now)|
      reflexivity|reflexivity]. }
  destruct (blobs (disk m) !! ck) as [[cd|]|] eqn:Hb; [| done |].
  - cbn zeta.
    destruct (if decide (dataType md = "string") then _ else _); [|done].
    by destruct (templateThrows k).
  - destruct (templateThrows k); cbn [snd]; [done|].
    eapply consistent_delete; [exact Hc|reflexivity|].
    cbn. by rewrite delete_id.
Qed.

Lemma has_consistent k now m :
  consistent m -> consistent (has rt k now m).2.
Proof.
  intros Hc. unfold has.
  destruct (generateCacheKey rt k) as [ck|]; [|done].
  destruct (Map_get ck (cacheIndex m)); [|done].
  case_decide; [by apply delete_consistent|done].
Qed.

Lemma cleanupExpired_consistent now m :
  consistent m -> consistent (cleanupExpired now m).2.
Proof.
  intros Hc. unfold cleanupExpired.
  match goal with |- context [foldl ?f ?a ?l] =>
    assert (consistent (foldl f a l).2) as Hinv;
    [|destruct (foldl f a l) as [[c s] m1]] end.
  { apply (foldl_invariant (fun acc => consistent acc.2)); [done|].
    intros acc e Hacc. case_decide; [by apply removeEntry_consistent|done]. }
  cbn [snd] in Hinv. destruct (decide (c > 0)); cbn [snd]; [|done].
  eapply consistent_same; [exact Hinv| |].
  - unfold set_lastCleanup. cbn [cacheIndex with_stats].
    by rewrite saveCacheIndex_index.
  - unfold set_lastCleanup. cbn [disk with_stats].
    by rewrite saveCacheIndex_blobs.
Qed.

Lemma cleanupOversized_consistent now m :
  consistent m -> consistent (cleanupOversized now m).2.
Proof.
  intros Hc. unfold cleanupOversized. case_decide; [done|].
  match goal with |- context [evictLoop ?x ?l ?a] =>
    assert (consistent (evictLoop x l a).2) as Hinv;
    [|destruct (evictLoop x l a) as [[c s] m1]] end.
  { apply (evictLoop_invariant (fun acc => consistent acc.2)); [done|].
    intros e acc. apply removeEntry_consistent. }
  cbn [snd] in Hinv. destruct (decide (c > 0)); cbn [snd]; [|done].
  eapply consistent_same; [exact Hinv| |].
  - by rewrite saveCacheIndex_index.
  - by rewrite saveCacheIndex_blobs.
Qed.

Lemma cleanup_consistent now m :
  consistent m -> consistent (cleanup now m).2.
Proof.
  intros Hc. unfold cleanup.
  pose proof (cleanupExpired_consistent now m Hc) as H1.
  destruct (cleanupExpired now m) as [[c1 s1] m1]. cbn [snd] in H1.
  pose proof (cleanupOversized_consistent now m1 H1) as H2.
  by destruct (cleanupOversized now m1) as [[c2 s2] m2].
Qed.

End Failures.

(** X1. Whichever blob writes and unlinks throw (leaving the file as
    it was), every call sequence without [clear] keeps index and blob
    files consistent: the index is updated only after the file
    operation succeeded. *)
Theorem consistency_survives_io_failures (rt : Runtime)
    (calls : list (Z * Call)) (m : Manager) :
  Forall (fun c => c.2 <> CallClear) calls ->
  consistent m ->
  consistent (run rt calls m).
Proof.
  intros Hcalls. revert m. unfold run.
  induction Hcalls as [|[now c] calls Hc _ IH]; intros m Hm; [done|].
  cbn [foldl]. apply IH. cbn [fst snd] in *.
  destruct c; cbn [perform]; try done.
  - by apply set_consistent.
  - by apply get_consistent.
  - by apply has_consistent.
  - by apply delete_consistent.
  - by apply cleanupExpired_consistent.
  - by apply cleanupOversized_consistent.
  - by apply cleanup_consistent.
Qed.

Lemma lockedManager_consistent : consistent lockedManager.
Proof.
  assert (wellFormed writtenManager) as (_ & Hc & _)
    by apply set_wellFormed, newManager_wellFormed.
  by eapply consistent_same.
Qed.

Lemma consistency_survives_io_failures_witness :
  Forall (fun c : Z * Call => c.2 <> CallClear)
    [(604800001, CallCleanupExpired); (604800002, CallDelete (JStr "k"));
     (604800003, CallSet (JStr "k") (JStr "w") None)] /\
  consistent lockedManager /\
  consistent
    (run sampleRuntime
       [(604800001, CallCleanupExpired); (604800002, CallDelete (JStr "k"));
        (604800003, CallSet (JStr "k") (JStr "w") None)] lockedManager).
Proof.
  assert (Forall (fun c : Z * Call => c.2 <> CallClear)
    [(604800001, CallCleanupExpired); (604800002, CallDelete (JStr "k"));
     (604800003, CallSet (JStr "k") (JStr "w") None)]) as Hcalls
    by (repeat constructor; discriminate).
  split; [exact Hcalls|]. split; [exact lockedManager_consistent|].
  exact (consistency_survives_io_failures sampleRuntime _ lockedManager
           Hcalls lockedManager_consistent).
Defined.



(** ** Removal when the blob cannot be unlinked *)

Section Locked.
Variable rt : Runtime.

Lemma removeEntry_keeps_locked k md b e acc :
  k ∈ readonlyBlobs (disk acc.2) ->
  Map_get k (cacheIndex acc.2) = Some md ->
  blobs (disk acc.2) !! k = Some b ->
  k ∈ readonlyBlobs (disk (removeEntry e acc).2) /\
  Map_get k (cacheIndex (removeEntry e acc).2) = Some md /\
  blobs (disk (removeEntry e acc).2) !! k = Some b.
Proof.
  destruct acc as [[c s] m], e as [k' md']. cbn [fst snd].
  intros Hro Hmd Hb. unfold removeEntry.
  destruct (decide (k' = k)) as [->|Hne].
  - rewrite Hb. by rewrite decide_True by done.
  - destruct (blobs (disk m) !! k') eqn:Hb'.
    + case_decide; [done|].
      cbn [snd cacheIndex disk blobs readonlyBlobs with_index with_disk
           with_blobs].
      rewrite Map_get_delete, decide_False by done.
      by rewrite lookup_delete_ne.
    + cbn [snd cacheIndex disk blobs readonlyBlobs with_index].
      by rewrite Map_get_delete, decide_False by done.
Qed.

(** X3. An entry whose blob cannot be unlinked survives every removal:
    [delete] returns [false], and [cleanupExpired] and
    [cleanupOversized] pass over it, expired or not, oldest or not; the
    index entry and the blob stay. *)
Theorem locked_blob_survives_removal (key : jsval) (now : Z) (m : Manager)
    (k : string) (md : Metadata) (b : FileBody) :
  generateCacheKey rt key = Normal k ->
  k ∈ readonlyBlobs (disk m) ->
  Map_get k (cacheIndex m) = Some md ->
  blobs (disk m) !! k = Some b ->
  delete rt key now m = (false, m) /\
  (forall m', m' = (cleanupExpired now m).2 \/
              m' = (cleanupOversized now m).2 \/
              m' = (cleanup now m).2 ->
     Map_get k (cacheIndex m') = Some md /\
     blobs (disk m') !! k = Some b).
Proof.
  intros Hk Hro Hmd Hb.
  assert (forall m0,
    k ∈ readonlyBlobs (disk m0) -> Map_get k (cacheIndex m0) = Some md ->
    blobs (disk m0) !! k = Some b ->
    let m' := (cleanupExpired now m0).2 in
    k ∈ readonlyBlobs (disk m') /\ Map_get k (cacheIndex m') = Some md /\
    blobs (disk m') !! k = Some b) as Hexp.
  { intros m0 Hro0 Hmd0 Hb0. cbn zeta. unfold cleanupExpired.
    match goal with |- context [foldl ?f ?a ?l] =>
      assert (k ∈ readonlyBlobs (disk (foldl f a l).2) /\
              Map_get k (cacheIndex (foldl f a l).2) = Some md /\
              blobs (disk (foldl f a l).2) !! k = Some b) as Hinv;
      [|destruct (foldl f a l) as [[c s] m1]] end.
    { apply (foldl_invariant (fun acc =>
        k ∈ readonlyBlobs (disk acc.2) /\
        Map_get k (cacheIndex acc.2) = Some md /\
        blobs (disk acc.2) !! k = Some b)); [done|].
      intros acc e (? & ? & ?).
      case_decide; [by apply removeEntry_keeps_locked|done]. }
    cbn [snd] in Hinv. destruct (decide (c > 0)); cbn [snd]; [|done].
    unfold set_lastCleanup. cbn [disk cacheIndex with_stats].
    by rewrite saveCacheIndex_index, saveCacheIndex_blobs,
      saveCacheIndex_readonly. }
  assert (forall m0,
    k ∈ readonlyBlobs (disk m0) -> Map_get k (cacheIndex m0) = Some md ->
    blobs (disk m0) !! k = Some b ->
    let m' := (cleanupOversized now m0).2 in
    Map_get k (cacheIndex m') = Some md /\ blobs (disk m') !! k = Some b)
    as Hover.
  { intros m0 Hro0 Hmd0 Hb0. cbn zeta. unfold cleanupOversized.
    case_decide; [done|].
    match goal with |- context [evictLoop ?x ?l ?a] =>
      assert (k ∈ readonlyBlobs (disk (evictLoop x l a).2) /\
              Map_get k (cacheIndex (evictLoop x l a).2) = Some md /\
              blobs (disk (evictLoop x l a).2) !! k = Some b) as Hinv;
      [|destruct (evictLoop x l a) as [[c s] m1]] end.
    { apply (evictLoop_invariant (fun acc =>
        k ∈ readonlyBlobs (disk acc.2) /\
        Map_get k (cacheIndex acc.2) = Some md /\
        blobs (disk acc.2) !! k = Some b)); [done|].
      intros e acc (? & ? & ?). by apply removeEntry_keeps_locked. }
    cbn [snd] in Hinv. destruct Hinv as (_ & ? & ?).
    destruct (decide (c > 0)); cbn [snd]; [|done].
    by rewrite saveCacheIndex_index, saveCacheIndex_blobs. }
  split.
  - unfold delete. rewrite Hk, Hmd, Hb. by rewrite decide_True.
  - intros m' [->|[->| ->]].
    + by destruct (Hexp m Hro Hmd Hb) as (_ & ? & ?).
    + by apply Hover.
    + unfold cleanup. destruct (Hexp m Hro Hmd Hb) as (Hro1 & Hmd1 & Hb1).
      destruct (cleanupExpired now m) as [[c1 s1] m1]. cbn [snd] in *.
      pose proof (Hover m1 Hro1 Hmd1 Hb1) as H2.
      by destruct (cleanupOversized now m1) as [[c2 s2] m2].
Qed.

End Locked.

Lemma locked_blob_survives_removal_witness :
  generateCacheKey sampleRuntime (JStr "k") = Normal "k" /\
  "k" ∈ readonlyBlobs (disk lockedManager) /\
  delete sampleRuntime (JStr "k") 604800001 lockedManager
    = (false, lockedManager) /\
  is_Some (Map_get "k" (cacheIndex (cleanupExpired 604800001 lockedManager).2)).
Proof.
  assert ("k" ∈ readonlyBlobs (disk lockedManager)) as Hro
    by (vm_compute; reflexivity).
  assert (Map_get "k" (cacheIndex lockedManager)
          = Some {| key := JStr "k"; cacheKey := "k"; timestamp := 0;
                    ttl := 604800000; expiresAt := 604800000; size := 5;
                    isCompressed := true; isEncrypted := false;
                    dataType := "string"; version := "1.0" |}) as Hmd
    by (vm_compute; reflexivity).
  assert (exists b, blobs (disk lockedManager) !! "k" = Some b) as [b Hb]
    by (vm_compute; eexists; reflexivity).
  destruct (locked_blob_survives_removal sampleRuntime (JStr "k") 604800001
              lockedManager "k" _ b eq_refl Hro Hmd Hb) as [Hdel Hkeep].
  split; [reflexivity|]. split; [exact Hro|]. split; [exact Hdel|].
  destruct (Hkeep _ (or_introl eq_refl)) as [Hin _].
  rewrite Hin. by eexists.
Defined.

(** ** The expiry sweep *)

Section Sweeps.

Lemma filter_ext_in {A} (P Q : A -> Prop)
    `{!forall x, Decision (P x), !forall x, Decision (Q x)} (l : list A) :
  (forall x, x ∈ l -> (P x <-> Q x)) -> filter P l = filter Q l.
Proof.
  induction l as [|x l IH]; intros Hext; [done|].
  rewrite !filter_cons.
  assert (filter P l = filter Q l) as ->
    by (apply IH; intros y Hy; apply Hext; by right).
  destruct (decide (P x)) as [Hp|Hp], (decide (Q x)) as [Hq|Hq]; try done.
  - destruct Hq. by apply (Hext x); [left|].
  - destruct Hp. by apply (Hext x); [left|].
Qed.

Lemma Map_get_of_elem (l : Index) k v :
  NoDup l.*1 -> (k, v) ∈ l -> Map_get k l = Some v.
Proof.
  induction l as [|[k0 v0] l IH]; [by intros _ ?%elem_of_nil|].
  rewrite fmap_cons. cbn [fst Map_get].
  intros [Hnotin Hnd]%NoDup_cons [Heq|Hin]%elem_of_cons.
  - injection Heq as -> ->. by rewrite decide_True.
  - destruct (decide (k0 = k)) as [->|Hne]; [|by apply IH].
    destruct Hnotin. by apply (list_elem_of_fmap_2 fst _ (k, v)).
Qed.

(** With unique keys, the key of an entry is among the keys selected by
    [P] exactly when the entry itself is selected. *)
Lemma selected_key (P : string * Metadata -> Prop)
    `{!forall x, Decision (P x)} (l : Index) x :
  NoDup l.*1 -> x ∈ l -> (x.1 ∈ (filter P l).*1 <-> P x).
Proof.
  intros Hnd Hx. split.
  - intros [y [Hy1 [Hpy Hy]%list_elem_of_filter]]%list_elem_of_fmap.
    assert (x = y) as ->; [|done].
    destruct x as [k v], y as [k' v']. cbn in Hy1. subst k'.
    pose proof (Map_get_of_elem l k v Hnd Hx).
    pose proof (Map_get_of_elem l k v' Hnd Hy). congruence.
  - intros Hp. apply list_elem_of_fmap_2. by apply list_elem_of_filter.
Qed.

(** The loop of [cleanupExpired] over entries whose blobs exist, when
    no unlink throws. *)
Lemma expireLoop_spec now (l : Index) : forall c s m,
  ioSucceeds (disk m) ->
  NoDup l.*1 ->
  (forall e, e ∈ l -> is_Some (blobs (disk m) !! e.1)) ->
  let gone := filter (pastExpiry now) l in
  exists m',
    foldl (fun acc e =>
             if decide (now > expiresAt e.2) then removeEntry e acc else acc)
          (c, s, m) l
      = (c + Z.of_nat (length gone), s + sumSizes gone, m') /\
    cacheIndex m' = filter (fun e => e.1 ∉ gone.*1) (cacheIndex m) /\
    (forall k, blobs (disk m') !! k =
               if decide (k ∈ gone.*1) then None else blobs (disk m) !! k) /\
    ioSucceeds (disk m') /\
    cacheStats m' = cacheStats m /\ config m' = config m.
Proof.
  induction l as [|e l IH]; intros c s m Hio Hnd Hblobs; cbn zeta.
  - exists m. cbn [foldl filter list_filter length fmap list_fmap].
    split_and!; try done.
    + change (sumSizes []) with 0. by rewrite !Z.add_0_r.
    + by rewrite filter_keep_all.
  - rewrite fmap_cons in Hnd. apply NoDup_cons in Hnd as [Hfresh Hnd].
    cbn [foldl]. rewrite filter_cons.
    destruct (decide (now > expiresAt e.2)) as [Hexp|Hlive].
    + rewrite decide_True by done.
      destruct (removeEntry_ok e c s m Hio)
        as (m1 & Hstep & Hi1 & Hb1 & _ & Hio1 & Hst1 & Hcfg1).
      destruct (Hblobs e) as [b Hb]; [by left|]. rewrite Hb in Hstep.
      rewrite Hstep.
      destruct (IH (c + 1) (s + size e.2) m1 Hio1 Hnd)
        as (m' & Hrun & Hi & Hb' & Hio' & Hst & Hcfg).
      { intros e' He'. rewrite Hb1, lookup_delete_ne; [apply Hblobs; by right|].
        intros Heq. apply Hfresh. rewrite Heq.
        by apply list_elem_of_fmap_2. }
      cbn zeta in *. exists m'.
      assert (sumSizes (e :: filter (pastExpiry now) l)
              = size e.2 + sumSizes (filter (pastExpiry now) l)) as Hsum
        by done.
      split_and!; try done; try congruence.
      * rewrite Hrun, Hsum.
        replace (c + 1 + Z.of_nat (length (filter (pastExpiry now) l)))
          with (c + Z.of_nat (length (e :: filter (pastExpiry now) l)))
          by (cbn [length]; lia).
        by rewrite Z.add_assoc.
      * rewrite Hi, Hi1. unfold Map_delete. rewrite list_filter_filter.
        apply list_filter_iff. intros x. rewrite fmap_cons, not_elem_of_cons.
        tauto.
      * intros k. rewrite Hb', Hb1, fmap_cons, lookup_delete.
        destruct (decide (k ∈ (filter (pastExpiry now) l).*1)) as [Hin|Hnin].
        -- rewrite decide_True; [done|]. by right.
        -- destruct (decide (e.1 = k)) as [<-|Hne].
           ++ rewrite decide_True; [done|]. by left.
           ++ rewrite decide_False; [done|].
              intros [->|?]%elem_of_cons; done.
    + rewrite decide_False by done.
      apply IH; try done. intros e' He'. apply Hblobs. by right.
Qed.

(** On entries none of which has expired the loop does nothing. *)
Lemma expireLoop_nothing now (l : Index) acc :
  (forall e, e ∈ l -> ~ now > expiresAt e.2) ->
  foldl (fun acc e =>
           if decide (now > expiresAt e.2) then removeEntry e acc else acc)
        acc l = acc.
Proof.
  revert acc. induction l as [|e l IH]; intros acc Hlive; [done|].
  cbn [foldl]. rewrite decide_False by (apply Hlive; by left).
  apply IH. intros e' He'. apply Hlive. by right.
Qed.

(** What [cleanupOversized] does on a well-formed instance: it splits
    the index into what it removes and what it keeps. *)
Lemma cleanupOversized_result now m :
  wellFormed m ->
  0 <= maxCacheSize (config m) ->
  exists ev kp,
    cacheIndex m ≡ₚ ev ++ kp /\
    (cleanupOversized now m).1 = (Z.of_nat (length ev), sumSizes ev) /\
    cacheIndex (cleanupOversized now m).2
      = filter (fun e => e.1 ∉ ev.*1) (cacheIndex m) /\
    cacheIndex (cleanupOversized now m).2 ≡ₚ kp /\
    totalSize (cacheStats (cleanupOversized now m).2)
      <= maxCacheSize (config m).
Proof.
  intros (Hio & [Hnd Hiff] & [Hfresh _]) Hmax. unfold cleanupOversized.
  case_decide as Hover.
  { exists [], (cacheIndex m). cbn [fst snd app length fmap list_fmap].
    by rewrite filter_keep_all. }
  pose proof (sortByTimestamp_perm (cacheIndex m)) as Hperm.
  assert (NoDup (sortByTimestamp (cacheIndex m)).*1) as Hnd'
    by by rewrite Hperm.
  destruct (evictLoop_prefix (maxCacheSize (config m))
              (sortByTimestamp (cacheIndex m)) 0 0 m Hio Hnd')
    as (ev & kp & m1 & Hsplit & Hrun & Hi & Hb & Hio1 & Hst & Hcfg
        & Hstop & Hmin).
  { intros e He. apply Hiff, Map_get_is_Some.
    rewrite Hperm in He. by apply list_elem_of_fmap_2. }
  rewrite !Z.add_0_l in Hrun. rewrite Hrun.
  assert (filter (fun e => e.1 ∉ ev.*1) (cacheIndex m) ≡ₚ kp) as Hleft.
  { rewrite <- Hperm, Hsplit, filter_app.
    rewrite Hsplit, fmap_app in Hnd'.
    apply NoDup_app in Hnd' as (_ & Hdisj & _).
    rewrite filter_keys_none by (intros; by apply list_elem_of_fmap_2).
    rewrite filter_keys_all; [done|].
    intros e He Hin. by apply (Hdisj e.1), list_elem_of_fmap_2. }
  assert (sumSizes (cacheIndex m) = sumSizes ev + sumSizes kp) as Hsum.
  { rewrite <- sumSizes_app, <- Hsplit. symmetry. by apply sumSizes_perm. }
  assert (0 < Z.of_nat (length ev)) as Hpos.
  { destruct ev as [|e ev]; [|cbn [length]; lia].
    change (sumSizes []) with 0 in *.
    destruct Hstop as [->|Hstop]; [|lia].
    change (sumSizes []) with 0 in Hsum. lia. }
  rewrite decide_True by lia. cbn [fst snd].
  rewrite saveCacheIndex_index, saveCacheIndex_stats.
  cbn [cacheIndex cacheStats updateCacheStats with_stats totalSize].
  exists ev, kp. rewrite Hi. split_and!; try done.
  - by rewrite <- Hperm, Hsplit.
  - rewrite (sumSizes_perm _ _ Hleft).
    destruct Hstop as [->|Hstop]; [done|]. lia.
Qed.

(** What [cleanupOversized] leaves fits the budget and was there
    before. *)
Lemma cleanupOversized_fits now m :
  wellFormed m ->
  0 <= maxCacheSize (config m) ->
  totalSize (cacheStats (cleanupOversized now m).2) <= maxCacheSize (config m)
  /\ forall e, e ∈ cacheIndex (cleanupOversized now m).2 -> e ∈ cacheIndex m.
Proof.
  intros Hwf Hmax.
  destruct (cleanupOversized_result now m Hwf Hmax)
    as (ev & kp & _ & _ & Hi & _ & Hfit).
  split; [done|]. rewrite Hi. by intros e [_ He]%list_elem_of_filter.
Qed.

(** What [cleanupExpired] does on a well-formed instance. *)
Lemma cleanupExpired_result now m :
  wellFormed m ->
  let gone := filter (pastExpiry now) (cacheIndex m) in
  let r := cleanupExpired now m in
  r.1 = (Z.of_nat (length gone), sumSizes gone) /\
  cacheIndex r.2 = filter (fun e => ~ pastExpiry now e) (cacheIndex m) /\
  (forall k, blobs (disk r.2) !! k =
             if decide (k ∈ gone.*1) then None else blobs (disk m) !! k) /\
  (gone <> [] -> lastCleanup (cacheStats r.2) = Some now /\
                 persistedIndex r.2 = Some (cacheIndex r.2)) /\
  (gone = [] -> r.2 = m).
Proof.
  intros (Hio & [Hnd Hiff] & Hfresh). cbn zeta.
  destruct (expireLoop_spec now (cacheIndex m) 0 0 m Hio Hnd)
    as (m1 & Hrun & Hi & Hb & Hio1 & Hst & Hcfg).
  { intros e He. apply Hiff, Map_get_is_Some. by apply list_elem_of_fmap_2. }
  cbn zeta in *. rewrite !Z.add_0_l in Hrun.
  assert (filter (fun e => e.1 ∉ (filter (pastExpiry now) (cacheIndex m)).*1)
            (cacheIndex m)
          = filter (fun e => ~ pastExpiry now e) (cacheIndex m)) as Hlive.
  { apply filter_ext_in. intros x Hx.
    by rewrite (selected_key (pastExpiry now) (cacheIndex m) x Hnd Hx). }
  unfold cleanupExpired. rewrite Hrun.
  destruct (filter (pastExpiry now) (cacheIndex m)) as [|g gone] eqn:Hgone.
  - cbn [length]. rewrite decide_False by lia. cbn [fst snd].
    assert (m1 = m) as ->.
    { rewrite expireLoop_nothing in Hrun; [by injection Hrun|].
      intros e He Hexp.
      assert (e ∈ filter (pastExpiry now) (cacheIndex m)) as Hin
        by by apply list_elem_of_filter.
      rewrite Hgone in Hin. by apply elem_of_nil in Hin. }
    split_and!; try done. by rewrite <- Hlive, <- Hi.
  - rewrite decide_True by (cbn [length]; lia). cbn [fst snd].
    unfold set_lastCleanup.
    cbn [cacheIndex cacheStats disk with_stats lastCleanup].
    rewrite saveCacheIndex_index, saveCacheIndex_blobs.
    cbn [cacheIndex disk updateCacheStats with_stats].
    split_and!; try done.
    + by rewrite Hi, Hlive.
    + intros _. split; [done|]. unfold persistedIndex. cbn [disk with_stats].
      by rewrite saveCacheIndex_ok.
Qed.

(** When no entry has expired and the total fits, [cleanup] does
    nothing. *)
Lemma cleanup_nothing_to_do now m :
  (forall e, e ∈ cacheIndex m -> ~ now > expiresAt e.2) ->
  totalSize (cacheStats m) <= maxCacheSize (config m) ->
  cleanup now m = (0, 0, totalFiles (cacheStats m), m).
Proof.
  intros Hlive Hfit. unfold cleanup, cleanupExpired.
  rewrite expireLoop_nothing by done.
  rewrite decide_False by lia. unfold cleanupOversized.
  by rewrite decide_True.
Qed.

Lemma cleanupExpired_config now m :
  wellFormed m -> config (cleanupExpired now m).2 = config m.
Proof.
  intros Hwf. unfold cleanupExpired.
  match goal with |- context [foldl ?f ?a ?l] =>
    assert (sweepInv m (foldl f a l)) as Hs;
    [|destruct (foldl f a l) as [[c s] m1]] end.
  { apply foldl_invariant; [by apply sweepInv_start|].
    intros acc e Hacc. case_decide; [by apply removeEntry_sweepInv|done]. }
  destruct Hs as (_ & _ & _ & Hcfg & _). cbn [snd] in *.
  case_decide; cbn [snd]; [|done].
  unfold set_lastCleanup. cbn [config with_stats].
  by rewrite saveCacheIndex_config.
Qed.

(** After [cleanup] no entry is expired and the total fits. *)
Lemma cleanup_leaves_nothing_to_do now m :
  wellFormed m ->
  0 <= maxCacheSize (config m) ->
  (forall e, e ∈ cacheIndex (cleanup now m).2 -> ~ now > expiresAt e.2) /\
  totalSize (cacheStats (cleanup now m).2)
    <= maxCacheSize (config (cleanup now m).2).
Proof.
  intros Hwf Hmax.
  pose proof (cleanupExpired_wellFormed now m Hwf) as Hwf1.
  assert (forall e, e ∈ cacheIndex (cleanupExpired now m).2 ->
                    ~ now > expiresAt e.2) as Hlive1.
  { destruct Hwf as (Hio & [Hnd Hiff] & _).
    destruct (expireLoop_spec now (cacheIndex m) 0 0 m Hio Hnd)
      as (m1 & Hrun & Hi & _).
    { intros e He. apply Hiff, Map_get_is_Some.
      by apply list_elem_of_fmap_2. }
    cbn zeta in *. unfold cleanupExpired. rewrite Hrun.
    intros e He. assert (e ∈ cacheIndex m1) as He1.
    { revert He. case_decide; cbn [snd]; [|done].
      unfold set_lastCleanup. cbn [cacheIndex with_stats].
      by rewrite saveCacheIndex_index. }
    rewrite Hi in He1. apply list_elem_of_filter in He1 as [Hout He1].
    intros Hexp. apply Hout.
    apply list_elem_of_fmap_2. by apply list_elem_of_filter. }
  pose proof (cleanupExpired_config now m Hwf) as Hcfg1.
  unfold cleanup.
  destruct (cleanupExpired now m) as [[c1 s1] m1]. cbn [snd] in *.
  destruct (cleanupOversized_fits now m1 Hwf1) as [Hfit Hsub];
    [by rewrite Hcfg1|].
  assert (config (cleanupOversized now m1).2 = config m1) as Hcfg2.
  { unfold cleanupOversized. case_decide; [done|].
    match goal with |- context [evictLoop ?x ?l ?a] =>
      pose proof (evictLoop_invariant (sweepInv m1) x l a
                    (sweepInv_start m1 Hwf1) (removeEntry_sweepInv m1)) as Hs;
      destruct (evictLoop x l a) as [[c s] m2] end.
    destruct Hs as (_ & _ & _ & Hcfg & _). cbn [snd] in *.
    case_decide; cbn [snd]; [|done]. by rewrite saveCacheIndex_config. }
  destruct (cleanupOversized now m1) as [[c2 s2] m2]. cbn [snd] in *.
  split; [|by rewrite Hcfg2].
  intros e He. by apply Hlive1, Hsub.
Qed.

End Sweeps.

(** X4. On a well-formed instance [cleanupExpired] removes exactly the
    entries with [now > expiresAt], index entry and blob, and nothing
    else; it returns their number and the sum of their sizes.  When
    something was removed the index is saved and [lastCleanup] set;
    otherwise the instance is untouched. *)
Theorem cleanupExpired_removes_exactly_expired (now : Z) (m : Manager) :
  wellFormed m ->
  let gone := filter (pastExpiry now) (cacheIndex m) in
  let r := cleanupExpired now m in
  r.1 = (Z.of_nat (length gone), sumSizes gone) /\
  cacheIndex r.2 = filter (fun e => ~ pastExpiry now e) (cacheIndex m) /\
  (forall k, blobs (disk r.2) !! k =
             if decide (k ∈ gone.*1) then None else blobs (disk m) !! k) /\
  (gone <> [] -> lastCleanup (cacheStats r.2) = Some now /\
                 persistedIndex r.2 = Some (cacheIndex r.2)) /\
  (gone = [] -> r.2 = m).
Proof.
  apply cleanupExpired_result.
Qed.

(** X5. [cleanup] is idempotent at one clock value: on a well-formed
    instance with a non-negative budget, a second [cleanup] right after
    the first removes nothing, reports zero and leaves the instance as
    it is. *)
Theorem cleanup_idempotent (now : Z) (m : Manager) :
  wellFormed m ->
  0 <= maxCacheSize (config m) ->
  let m' := (cleanup now m).2 in
  cleanup now m' = (0, 0, totalFiles (cacheStats m'), m').
Proof.
  intros Hwf Hmax. cbn zeta.
  destruct (cleanup_leaves_nothing_to_do now m Hwf Hmax) as [Hlive Hfit].
  by apply cleanup_nothing_to_do.
Qed.

(** X6. The report of [cleanup] is accurate on a well-formed
    instance: the number of entries it says it removed is the number by
    which the index shrank, the bytes it says it freed are the bytes by
    which the sizes in the index shrank, and [remaining] is the number
    of entries left. *)
Theorem cleanup_report_accurate (now : Z) (m : Manager) :
  wellFormed m ->
  0 <= maxCacheSize (config m) ->
  let r := cleanup now m in
  r.1.1.1 = Z.of_nat (length (cacheIndex m))
            - Z.of_nat (length (cacheIndex r.2)) /\
  r.1.1.2 = sumSizes (cacheIndex m) - sumSizes (cacheIndex r.2) /\
  r.1.2 = Z.of_nat (length (cacheIndex r.2)).
Proof.
  intros Hwf Hmax. cbn zeta.
  destruct (cleanupExpired_result now m Hwf) as (H1 & Hi1 & _).
  cbn zeta in *.
  pose proof (cleanupExpired_wellFormed now m Hwf) as Hwf1.
  pose proof (cleanupExpired_config now m Hwf) as Hcfg1.
  pose proof (filter_app_complement (pastExpiry now) (cacheIndex m)) as Hsplit.
  unfold cleanup.
  destruct (cleanupExpired now m) as [[c1 s1] m1]. cbn [fst snd] in *.
  injection H1 as -> ->.
  destruct (cleanupOversized_result now m1 Hwf1) as
    (ev & kp & Hperm & H2 & _ & Hi2 & _); [by rewrite Hcfg1|].
  pose proof (cleanupOversized_wellFormed now m1 Hwf1) as (_ & _ & [_ Hfiles]).
  destruct (cleanupOversized now m1) as [[c2 s2] m2]. cbn [fst snd] in *.
  injection H2 as -> ->.
  rewrite <- Hi1 in Hsplit.
  pose proof (Permutation_length Hsplit) as Hlen.
  pose proof (sumSizes_perm _ _ Hsplit) as Hsz.
  rewrite length_app in Hlen. rewrite sumSizes_app in Hsz.
  pose proof (Permutation_length Hperm) as Hlen1.
  pose proof (sumSizes_perm _ _ Hperm) as Hsz1.
  rewrite length_app in Hlen1. rewrite sumSizes_app in Hsz1.
  pose proof (Permutation_length Hi2) as Hlen2.
  pose proof (sumSizes_perm _ _ Hi2) as Hsz2.
  rewrite Hfiles. unfold Map_size. split_and!; lia.
Qed.

Lemma cleanup_report_accurate_witness :
  wellFormed fiveManager /\
  0 <= maxCacheSize (config fiveManager) /\
  (cleanup 6 fiveManager).1.1.1 = 2.
Proof.
  assert (wellFormed fiveManager) as Hwf
    by apply run_wellFormed, newManager_wellFormed.
  assert (0 <= maxCacheSize (config fiveManager)) as Hmax
    by (vm_compute; discriminate).
  split; [exact Hwf|]. split; [exact Hmax|].
  rewrite (proj1 (cleanup_report_accurate 6 fiveManager Hwf Hmax)).
  vm_compute. reflexivity.
Defined.

Lemma cleanup_idempotent_witness :
  wellFormed fiveManager /\
  0 <= maxCacheSize (config fiveManager) /\
  (cleanup 6 (cleanup 6 fiveManager).2).1 = (0, 0, 3).
Proof.
  assert (wellFormed fiveManager) as Hwf
    by apply run_wellFormed, newManager_wellFormed.
  assert (0 <= maxCacheSize (config fiveManager)) as Hmax
    by (vm_compute; discriminate).
  split; [exact Hwf|]. split; [exact Hmax|].
  rewrite (cleanup_idempotent 6 fiveManager Hwf Hmax).
  vm_compute. reflexivity.
Defined.

Lemma cleanupExpired_removes_exactly_expired_witness :
  wellFormed fiveManager /\
  cacheIndex (cleanupExpired 604800003 fiveManager).2
    = filter (fun e => ~ pastExpiry 604800003 e) (cacheIndex fiveManager).
Proof.
  assert (wellFormed fiveManager) as Hwf
    by apply run_wellFormed, newManager_wellFormed.
  split; [exact Hwf|].
  exact (proj1 (proj2
    (cleanupExpired_removes_exactly_expired 604800003 fiveManager Hwf))).
Defined.

(** ** [clear], [has] and [delete] *)

Section Removal.
Variable rt : Runtime.

Lemma unlink_counts l : forall acc,
  ioSucceeds acc.2 ->
  NoDup l.*1 ->
  (forall e, e ∈ l -> is_Some (blobs acc.2 !! e.1)) ->
  (foldl unlinkEntry acc l).1 = acc.1 + Z.of_nat (length l).
Proof.
  induction l as [|e l IH]; intros [c d] Hio Hnd Hblobs; cbn [fst snd] in *.
  - cbn. lia.
  - rewrite fmap_cons in Hnd. apply NoDup_cons in Hnd as [Hfresh Hnd].
    cbn [foldl]. destruct (Hblobs e) as [b Hb]; [by left|].
    assert (unlinkEntry (c, d) e
            = (c + 1, with_blobs d (base.delete e.1 (blobs d)))) as ->.
    { unfold unlinkEntry. rewrite Hb. by rewrite decide_False by by apply writable. }
    rewrite IH; cbn [fst snd length]; [lia|by destruct Hio|done|].
    intros e' He'. cbn [blobs with_blobs].
    rewrite lookup_delete_ne; [apply Hblobs; by right|].
    intros Heq. apply Hfresh. rewrite Heq. by apply list_elem_of_fmap_2.
Qed.

Lemma Map_get_delete_same k idx : Map_get k (Map_delete k idx) = None.
Proof. rewrite Map_get_delete. by rewrite decide_True. Qed.

Lemma Map_delete_set_absent k v idx :
  Map_get k idx = None -> Map_delete k (Map_set k v idx) = idx.
Proof.
  unfold Map_delete.
  induction idx as [|[k0 v0] idx IH]; cbn [Map_get Map_set]; intros Habs.
  - rewrite filter_cons_False; [done|]. cbn. by intros H; apply H.
  - destruct (decide (k0 = k)) as [|Hne]; [done|].
    rewrite filter_cons_True by done. by rewrite IH.
Qed.

End Removal.

(** X7. On a well-formed instance [clear] unlinks every blob, empties
    the index, resets the statistics and saves the empty index; the
    number it returns is the number of entries the cache held. *)
Theorem clear_empties_cache (now : Z) (m : Manager) :
  wellFormed m ->
  (clear now m).1 = Z.of_nat (length (cacheIndex m)) /\
  cacheIndex (clear now m).2 = [] /\
  blobs (disk (clear now m).2) = ∅ /\
  cacheStats (clear now m).2 = zeroStats (Some now) /\
  persistedIndex (clear now m).2 = Some [].
Proof.
  intros (Hio & [Hnd Hiff] & _).
  pose proof (unlink_counts (cacheIndex m) (0, disk m) Hio Hnd) as Hcount.
  destruct (unlink_all (cacheIndex m) (0, disk m) Hio) as [Hio' Hlk].
  unfold clear.
  destruct (foldl unlinkEntry (0, disk m) (cacheIndex m)) as [c d].
  cbn [fst snd] in *. rewrite saveCacheIndex_ok by done.
  cbn [fst snd cacheIndex disk blobs cacheStats with_disk with_indexFile].
  split_and!; try done.
  - rewrite Hcount; [lia|]. intros e He.
    apply Hiff, Map_get_is_Some. by apply list_elem_of_fmap_2.
  - apply map_empty. intros k. rewrite Hlk.
    case_decide as Hin; [done|].
    destruct (blobs (disk m) !! k) eqn:Hb; [|done].
    destruct Hin. apply Map_get_is_Some, Hiff. by eexists.
Qed.

Lemma clear_empties_cache_witness :
  wellFormed fiveManager /\ (clear 9 fiveManager).1 = 5.
Proof.
  assert (wellFormed fiveManager) as Hwf
    by apply run_wellFormed, newManager_wellFormed.
  split; [exact Hwf|].
  rewrite (proj1 (clear_empties_cache 9 fiveManager Hwf)).
  vm_compute. reflexivity.
Defined.

(** X8. [has] looks at the index only: for an entry that has not
    expired but whose blob is missing, [has] answers [true] and changes
    nothing, while [get] answers [null] and counts a miss.  Under a key
    that converts to a string [get] also drops the entry, after which
    [has] answers [false].  Under a key whose conversion throws, the
    message of this branch cannot be printed: the entry stays and [has]
    goes on answering [true]. *)
Theorem has_ignores_missing_blob (rt : Runtime) (key : jsval) (now : Z)
    (m : Manager) (ck : string) (md : Metadata) :
  generateCacheKey rt key = Normal ck ->
  Map_get ck (cacheIndex m) = Some md ->
  ~ now > expiresAt md ->
  blobs (disk m) !! ck = None ->
  has rt key now m = (Normal true, m) /\
  (get rt key now m).1 = JNull /\
  misses (cacheStats (get rt key now m).2) = misses (cacheStats m) + 1 /\
  hits (cacheStats (get rt key now m).2) = hits (cacheStats m) /\
  cacheIndex (get rt key now m).2
    = (if templateThrows key then cacheIndex m
       else Map_delete ck (cacheIndex m)) /\
  has rt key now (get rt key now m).2
    = (Normal (templateThrows key), (get rt key now m).2).
Proof.
  intros Hk Hmd Hexp Hb.
  rewrite (get_repair rt key now m ck md Hk Hmd Hexp Hb). cbn [fst snd].
  split_and!; try done.
  - unfold has. rewrite Hk, Hmd. by rewrite decide_False.
  - by destruct (templateThrows key).
  - by destruct (templateThrows key).
  - by destruct (templateThrows key).
  - unfold has. rewrite Hk. unfold miss. cbn [cacheIndex with_stats].
    destruct (templateThrows key).
    + rewrite Hmd. by rewrite decide_False.
    + cbn [cacheIndex with_index]. by rewrite Map_get_delete_same.
Qed.

Lemma has_ignores_missing_blob_witness :
  has sampleRuntime (JStr "k") 1 staleManager = (Normal true, staleManager) /\
  (get sampleRuntime (JStr "k") 1 staleManager).1 = JNull /\
  (has sampleRuntime (JStr "k") 1
     (get sampleRuntime (JStr "k") 1 staleManager).2).1 = Normal false.
Proof.
  assert (Map_get "k" (cacheIndex staleManager)
          = Some {| key := JStr "k"; cacheKey := "k"; timestamp := 0;
                    ttl := 604800000; expiresAt := 604800000; size := 5;
                    isCompressed := true; isEncrypted := false;
                    dataType := "string"; version := "1.0" |}) as Hmd
    by (vm_compute; reflexivity).
  assert (~ 1 > 604800000) as Hexp by lia.
  assert (blobs (disk staleManager) !! "k" = None) as Hb
    by (vm_compute; reflexivity).
  destruct (has_ignores_missing_blob sampleRuntime (JStr "k") 1 staleManager
              "k" _ eq_refl Hmd Hexp Hb)
    as (Hhas & Hget & _ & _ & _ & Hafter).
  split; [exact Hhas|]. split; [exact Hget|].
  exact (f_equal fst Hafter).
Defined.

(** X9. A key that cannot be turned into a cache key (a non-string that
    [JSON.stringify] rejects or maps to [undefined]) makes [has] throw,
    while [set] and [delete] return [false] and [get] returns [null] and
    counts a miss; none of them touches index or files. *)
Theorem unserialisable_key (rt : Runtime) (key : jsval) :
  typeof key <> "string" ->
  JSON_stringify rt key = None ->
  forall data ttlOption now m,
    has rt key now m = (Throw, m) /\
    set rt key data ttlOption now m = (false, m) /\
    delete rt key now m = (false, m) /\
    get rt key now m = (JNull, miss m).
Proof.
  intros Hty Hjs data ttlOption now m.
  assert (generateCacheKey rt key = Throw) as Hk.
  { unfold generateCacheKey. destruct key; try by rewrite Hjs. done. }
  unfold has, set, delete, get. by rewrite Hk.
Qed.

Lemma unserialisable_key_witness :
  typeof JUndefined <> "string" /\
  JSON_stringify sampleRuntime JUndefined = None /\
  has sampleRuntime JUndefined 0 freshManager = (Throw, freshManager).
Proof.
  assert (typeof JUndefined <> "string") as Hty by done.
  split; [exact Hty|]. split; [reflexivity|].
  exact (proj1 (unserialisable_key sampleRuntime JUndefined Hty eq_refl
                  JNull None 0 freshManager)).
Defined.

(** X10. After a successful [delete] the entry and its blob are gone:
    [get] returns [null] and counts a miss, [has] returns [false], and a
    second [delete] returns [false]; none of the three changes index or
    files again. *)
Theorem delete_then_absent (rt : Runtime) (key : jsval) (now now' : Z)
    (m m' : Manager) (ck : string) :
  generateCacheKey rt key = Normal ck ->
  delete rt key now m = (true, m') ->
  Map_get ck (cacheIndex m') = None /\
  blobs (disk m') !! ck = None /\
  get rt key now' m' = (JNull, miss m') /\
  has rt key now' m' = (Normal false, m') /\
  delete rt key now' m' = (false, m').
Proof.
  intros Hk Hd.
  apply delete_success in Hd as (ck' & md & Hk' & _ & _ & Hi & Hb & _).
  assert (ck' = ck) as -> by congruence.
  assert (Map_get ck (cacheIndex m') = None) as Hgone
    by (rewrite Hi; apply Map_get_delete_same).
  split_and!; try done.
  - rewrite Hb. apply lookup_delete_eq.
  - unfold get. by rewrite Hk, Hgone.
  - unfold has. by rewrite Hk, Hgone.
  - unfold delete. by rewrite Hk, Hgone.
Qed.

Lemma delete_then_absent_witness :
  let m' := (delete sampleRuntime (JStr "k") 1 writtenManager).2 in
  delete sampleRuntime (JStr "k") 1 writtenManager = (true, m') /\
  delete sampleRuntime (JStr "k") 2 m' = (false, m').
Proof.
  intros m'.
  assert (delete sampleRuntime (JStr "k") 1 writtenManager = (true, m'))
    as Hd by (vm_compute; reflexivity).
  split; [exact Hd|].
  exact (proj2 (proj2 (proj2 (proj2
    (delete_then_absent sampleRuntime (JStr "k") 1 2 writtenManager m' "k"
       eq_refl Hd))))).
Defined.

(** X11. Writing a key that the cache does not hold and deleting it
    again gives back the index, in its order, and the blob files that
    were there before. *)
Theorem set_then_delete_restores (rt : Runtime) (key data : jsval)
    (ttlOption : option Z) (now now' : Z) (m m1 : Manager) (ck : string) :
  generateCacheKey rt key = Normal ck ->
  Map_get ck (cacheIndex m) = None ->
  blobs (disk m) !! ck = None ->
  set rt key data ttlOption now m = (true, m1) ->
  (delete rt key now' m1).1 = true /\
  cacheIndex (delete rt key now' m1).2 = cacheIndex m /\
  blobs (disk (delete rt key now' m1).2) = blobs (disk m).
Proof.
  intros Hk Hnone Hb Hset.
  apply set_success in Hset
    as (ck' & pd & md & enc & Hk' & _ & Hro & _ & _ & _ & _ & _ & _
        & Hi & Hb1 & Hro1 & _ & _ & Hp).
  assert (ck' = ck) as -> by congruence.
  destruct (delete_removed rt key now' m1 ck md) as (H1 & Hi' & Hb' & _);
    [done| |intros _; by rewrite Hro1|].
  { rewrite Hi, Map_get_set. by rewrite decide_True. }
  cbn zeta in *. rewrite H1, Hp, Hi', Hb', Hi, Hb1. split_and!; [done| |].
  - by apply Map_delete_set_absent.
  - by apply delete_insert_id.
Qed.

Lemma set_then_delete_restores_witness :
  set sampleRuntime (JStr "k") (JStr "v") None 0 freshManager
    = (true, writtenManager) /\
  cacheIndex (delete sampleRuntime (JStr "k") 1 writtenManager).2
    = cacheIndex freshManager.
Proof.
  assert (set sampleRuntime (JStr "k") (JStr "v") None 0 freshManager
          = (true, writtenManager)) as Hset by (vm_compute; reflexivity).
  split; [exact Hset|].
  exact (proj1 (proj2
    (set_then_delete_restores sampleRuntime (JStr "k") (JStr "v") None 0 1
       freshManager writtenManager "k" eq_refl eq_refl eq_refl Hset))).
Defined.

(** ** [set] and the other entries *)

Section Writes.
Variable rt : Runtime.

(** The value [get] returns for a key depends on the configuration, on
    the index entry of the key and on its blob only. *)
Lemma get_value_local key now ma mb ck :
  generateCacheKey rt key = Normal ck ->
  config ma = config mb ->
  Map_get ck (cacheIndex ma) = Map_get ck (cacheIndex mb) ->
  blobs (disk ma) !! ck = blobs (disk mb) !! ck ->
  (get rt key now ma).1 = (get rt key now mb).1.
Proof.
  intros Hk Hcfg Hi Hb. unfold get. rewrite Hk, Hi, Hb, Hcfg.
  destruct (Map_get ck (cacheIndex mb)) as [md|]; [|done].
  case_decide; [by destruct (templateThrows key)|].
  destruct (blobs (disk mb) !! ck) as [[cd|]|];
    [|done|by destruct (templateThrows key)].
  cbn zeta.
  destruct (if decide (dataType md = "string") then _ else _); [|done].
  by destruct (templateThrows key).
Qed.

Lemma has_value_local key now ma mb ck :
  generateCacheKey rt key = Normal ck ->
  Map_get ck (cacheIndex ma) = Map_get ck (cacheIndex mb) ->
  (has rt key now ma).1 = (has rt key now mb).1.
Proof.
  intros Hk Hi. unfold has. rewrite Hk, Hi.
  destruct (Map_get ck (cacheIndex mb)) as [md|]; [|done].
  by case_decide.
Qed.

Lemma sumSizes_Map_set k v idx :
  sumSizes (Map_set k v idx)
  = sumSizes idx - from_option size 0 (Map_get k idx) + size v.
Proof.
  induction idx as [|[k0 v0] idx IH]; cbn [Map_set Map_get].
  - unfold sumSizes. cbn. lia.
  - destruct (decide (k0 = k)) as [->|Hne].
    + unfold sumSizes. cbn. lia.
    + unfold sumSizes in *. cbn [foldr snd]. rewrite IH. lia.
Qed.

Lemma length_Map_set k v idx :
  length (Map_set k v idx)
  = (length idx + (if Map_get k idx is Some _ then 0 else 1))%nat.
Proof.
  induction idx as [|[k0 v0] idx IH]; cbn [Map_set Map_get]; [done|].
  destruct (decide (k0 = k)) as [->|Hne]; cbn [length]; [lia|].
  rewrite IH. lia.
Qed.

End Writes.

(** X12. [set] touches one cache key: for a key with another cache key
    the index entry and the blob are what they were, and [get] and
    [has] answer as they would have without the [set]. *)
Theorem set_leaves_other_keys (rt : Runtime) (key key' data : jsval)
    (ttlOption : option Z) (now now' : Z) (m : Manager) (ck ck' : string) :
  generateCacheKey rt key = Normal ck ->
  generateCacheKey rt key' = Normal ck' ->
  ck <> ck' ->
  let m1 := (set rt key data ttlOption now m).2 in
  Map_get ck' (cacheIndex m1) = Map_get ck' (cacheIndex m) /\
  blobs (disk m1) !! ck' = blobs (disk m) !! ck' /\
  (get rt key' now' m1).1 = (get rt key' now' m).1 /\
  (has rt key' now' m1).1 = (has rt key' now' m).1.
Proof.
  intros Hk Hk' Hne. cbn zeta.
  assert (Map_get ck' (cacheIndex (set rt key data ttlOption now m).2)
            = Map_get ck' (cacheIndex m) /\
          blobs (disk (set rt key data ttlOption now m).2) !! ck'
            = blobs (disk m) !! ck' /\
          config (set rt key data ttlOption now m).2 = config m)
    as (Hi & Hb & Hcfg).
  { destruct (set_cases rt key data ttlOption now m)
      as [->|(ck0 & pd & Hk0 & Hpd & Hro)]; [done|].
    destruct (set_stored rt key data ttlOption now m ck0 pd Hk0 Hpd Hro)
      as (_ & Hi & Hb & _ & _ & Hcfg & _).
    assert (ck0 = ck) as -> by congruence.
    cbn zeta in *. rewrite Hi, Hb, Map_get_set, lookup_insert_ne by done.
    by rewrite decide_False. }
  split_and!; try done.
  - by apply (get_value_local rt key' now' _ _ ck').
  - by apply (has_value_local rt key' now' _ _ ck').
Qed.

Lemma set_leaves_other_keys_witness :
  generateCacheKey sampleRuntime (JStr "b") = Normal "b" /\
  generateCacheKey sampleRuntime (JStr "k") = Normal "k" /\
  "b" <> "k" /\
  (get sampleRuntime (JStr "k") 1
     (set sampleRuntime (JStr "b") (JStr "w") None 1 writtenManager).2).1
  = (get sampleRuntime (JStr "k") 1 writtenManager).1.
Proof.
  assert ("b" <> "k") as Hne by done.
  split; [reflexivity|]. split; [reflexivity|]. split; [exact Hne|].
  exact (proj1 (proj2 (proj2
    (set_leaves_other_keys sampleRuntime (JStr "b") (JStr "k") (JStr "w")
       None 1 1 writtenManager "b" "k" eq_refl eq_refl Hne)))).
Defined.

(** X13. After a successful [set] the cached aggregates are recomputed
    from the index, whatever they were before: [totalSize] is the old
    index total, less the size of the entry that was replaced if there
    was one, plus the byte length of the data written to the blob;
    [totalFiles] grows by one exactly when the key was new. *)
Theorem set_size_accounting (rt : Runtime) (key data : jsval)
    (ttlOption : option Z) (now : Z) (m m1 : Manager) (ck : string) :
  generateCacheKey rt key = Normal ck ->
  set rt key data ttlOption now m = (true, m1) ->
  exists md enc,
    blobs (disk m1) !! ck = Some (Parsed {| metadata := md; data := enc |}) /\
    Map_get ck (cacheIndex m1) = Some md /\
    size md = Z.of_nat (String.length enc) /\
    totalSize (cacheStats m1)
      = sumSizes (cacheIndex m)
        - from_option size 0 (Map_get ck (cacheIndex m))
        + Z.of_nat (String.length enc) /\
    totalFiles (cacheStats m1)
      = Z.of_nat (length (cacheIndex m))
        + (if Map_get ck (cacheIndex m) is Some _ then 0 else 1).
Proof.
  intros Hk. unfold set. rewrite Hk.
  destruct (processData rt data) as [pd|]; [|done].
  destruct (encode rt (config m) pd) as [[enc isC] isE].
  case_decide; [done|]. destruct (templateThrows key); [done|].
  intros [= <-]. eexists _, enc.
  rewrite saveCacheIndex_blobs, saveCacheIndex_index, saveCacheIndex_stats.
  cbn [cacheIndex cacheStats disk blobs updateCacheStats with_stats
       with_index with_disk with_blobs totalSize totalFiles].
  split_and!.
  - apply lookup_insert_eq.
  - rewrite Map_get_set. by rewrite decide_True.
  - done.
  - by rewrite sumSizes_Map_set.
  - unfold Map_size. rewrite length_Map_set.
    destruct (Map_get ck (cacheIndex m)); lia.
Qed.

Lemma set_size_accounting_witness :
  set sampleRuntime (JStr "k") (JStr "v") None 0 freshManager
    = (true, writtenManager) /\
  totalSize (cacheStats writtenManager) = 5.
Proof.
  assert (set sampleRuntime (JStr "k") (JStr "v") None 0 freshManager
          = (true, writtenManager)) as Hset by (vm_compute; reflexivity).
  split; [exact Hset|].
  destruct (set_size_accounting sampleRuntime (JStr "k") (JStr "v") None 0
              freshManager writtenManager "k" eq_refl Hset)
    as (md & enc & Hb & _ & _ & Hsize & _).
  assert (enc = "H4sIv") as ->.
  { assert (blobs (disk writtenManager) !! "k"
            = Some (Parsed {| metadata :=
                 {| key := JStr "k"; cacheKey := "k"; timestamp := 0;
                    ttl := 604800000; expiresAt := 604800000; size := 5;
                    isCompressed := true; isEncrypted := false;
                    dataType := "string"; version := "1.0" |};
                               data := "H4sIv" |})) as Hb'
      by (vm_compute; reflexivity).
    rewrite Hb in Hb'. by injection Hb'. }
  rewrite Hsize. vm_compute. reflexivity.
Defined.

(** X14. The cached aggregates never drift: after any sequence of calls
    from an empty cache directory on which no file operation fails,
    [totalSize] is the sum of the sizes in the index and [totalFiles]
    the number of its entries. *)
Theorem aggregates_follow_the_index (rt : Runtime) (cfg : Config)
    (calls : list (Z * Call)) :
  statsFresh (run rt calls (newManager cfg emptyDisk)).
Proof.
  apply (run_wellFormed rt calls (newManager cfg emptyDisk)).
  apply newManager_wellFormed.
Qed.

(** ** Snapshot and restart *)

(** The instance after a [get] that reaches [hits++]: only the
    counters have moved. *)
Lemma get_hit_state (rt : Runtime) k now m :
  expectedHit rt k now m = true ->
  (get rt k now m).2 = if templateThrows k then miss (hit m) else hit m.
Proof.
  unfold expectedHit, entryFound, get.
  destruct (generateCacheKey rt k) as [ck|]; [|done].
  destruct (Map_get ck (cacheIndex m)) as [md|]; [|done].
  cbn [fmap option_fmap option_map]. unfold expired, readCompletes.
  case_bool_decide as Hexp; [done|]. rewrite decide_False by done.
  destruct (blobs (disk m) !! ck) as [[cd|]|]; [|done|done].
  cbn zeta. case_bool_decide as Hstr.
  { rewrite decide_True by done. by destruct (templateThrows k). }
  rewrite decide_False by done. cbn [negb andb orb]. unfold decode.
  destruct (JSON_parse rt _); [by destruct (templateThrows k)|].
  rewrite bool_decide_false; [done|]. by intros [? ?].
Qed.

(** The instance constructed on the directory left by a successful
    [set] whose snapshot was written. *)
Lemma restart_state (rt : Runtime) key data ttlOption now m m1 :
  indexReadonly (disk m) = false ->
  set rt key data ttlOption now m = (true, m1) ->
  newManager (config m1) (disk m1) = m1.
Proof.
  intros Hidx. unfold set.
  destruct (generateCacheKey rt key) as [ck|]; [|done].
  destruct (processData rt data) as [pd|]; [|done].
  destruct (encode rt (config m) pd) as [[enc isC] isE].
  case_decide; [done|]. destruct (templateThrows key); [done|].
  intros [= <-].
  unfold saveCacheIndex. cbn [disk with_stats with_index with_disk
    with_blobs updateCacheStats indexReadonly].
  by rewrite Hidx.
Qed.

(** X15. Restart after a successful [set] whose snapshot was written:
    a new instance constructed on the directory answers every [get]
    and [has] as the old one would, with the same aggregates and the
    same counters.  A hit counted by a later [get] is not in the
    snapshot: an instance constructed after that [get] has the [hits]
    of before it. *)
Theorem restart_after_set (rt : Runtime) (key data : jsval)
    (ttlOption : option Z) (now : Z) (m m1 : Manager) :
  indexReadonly (disk m) = false ->
  set rt key data ttlOption now m = (true, m1) ->
  let restarted := newManager (config m1) (disk m1) in
  (forall key' now',
     (get rt key' now' restarted).1 = (get rt key' now' m1).1 /\
     (has rt key' now' restarted).1 = (has rt key' now' m1).1) /\
  cacheStats restarted = cacheStats m1 /\
  forall key' now',
    expectedHit rt key' now' m1 = true ->
    let afterGet := (get rt key' now' m1).2 in
    hits (cacheStats afterGet) = hits (cacheStats m1) + 1 /\
    hits (cacheStats (newManager (config afterGet) (disk afterGet)))
      = hits (cacheStats m1).
Proof.
  intros Hidx Hset. cbn zeta.
  rewrite (restart_state rt key data ttlOption now m m1 Hidx Hset).
  split_and!; try done.
  intros key' now' Hhit. rewrite (get_hit_state rt key' now' m1 Hhit).
  destruct (templateThrows key'); (split; [done|]).
  - change (newManager (config (miss (hit m1))) (disk (miss (hit m1))))
      with (newManager (config m1) (disk m1)).
    by rewrite (restart_state rt key data ttlOption now m m1 Hidx Hset).
  - change (newManager (config (hit m1)) (disk (hit m1)))
      with (newManager (config m1) (disk m1)).
    by rewrite (restart_state rt key data ttlOption now m m1 Hidx Hset).
Qed.

Lemma restart_after_set_witness :
  indexReadonly (disk freshManager) = false /\
  set sampleRuntime (JStr "k") (JStr "v") None 0 freshManager
    = (true, writtenManager) /\
  cacheStats (newManager (config writtenManager) (disk writtenManager))
    = cacheStats writtenManager.
Proof.
  assert (set sampleRuntime (JStr "k") (JStr "v") None 0 freshManager
          = (true, writtenManager)) as Hset by (vm_compute; reflexivity).
  split; [reflexivity|]. split; [exact Hset|].
  exact (proj1 (proj2 (restart_after_set sampleRuntime (JStr "k") (JStr "v")
                  None 0 freshManager writtenManager eq_refl Hset))).
Defined.

(** X16. A failing write of the snapshot is swallowed: when the blob
    can be written but [cache-index.json] cannot, [set] goes on to its
    last statement and answers as it does after a snapshot that was
    written, [true] when the key can be printed in the closing message
    and [false] when it cannot.  Either way the entry is in the index in
    memory and its blob on disk, and the snapshot file is what it
    was. *)
Theorem snapshot_failure_is_silent (rt : Runtime) (key data : jsval)
    (ttlOption : option Z) (now : Z) (m : Manager) (ck pd : string) :
  generateCacheKey rt key = Normal ck ->
  processData rt data = Some pd ->
  ck ∉ readonlyBlobs (disk m) ->
  indexReadonly (disk m) = true ->
  let r := set rt key data ttlOption now m in
  r.1 = negb (templateThrows key) /\
  is_Some (Map_get ck (cacheIndex r.2)) /\
  is_Some (blobs (disk r.2) !! ck) /\
  indexFile (disk r.2) = indexFile (disk m).
Proof.
  intros Hk Hpd Hro Hidx. cbn zeta.
  destruct (set_stored rt key data ttlOption now m ck pd Hk Hpd Hro)
    as (H1 & Hi & Hb & _).
  cbn zeta in *. split_and!; [done| | |].
  - rewrite Hi, Map_get_set. rewrite decide_True by done. by eexists.
  - rewrite Hb, lookup_insert_eq. by eexists.
  - unfold set. rewrite Hk, Hpd.
    destruct (encode rt (config m) pd) as [[enc isC] isE].
    rewrite decide_False by done.
    destruct (templateThrows key); cbn [snd]; unfold saveCacheIndex;
      cbn [disk with_stats with_index with_disk with_blobs
           updateCacheStats indexReadonly]; by rewrite Hidx.
Qed.

Lemma snapshot_failure_is_silent_witness :
  ("k" ∉ readonlyBlobs (disk (lockIndexFile freshManager))) /\
  indexReadonly (disk (lockIndexFile freshManager)) = true /\
  (set sampleRuntime (JStr "k") (JStr "v") None 0
     (lockIndexFile freshManager)).1 = true /\
  indexFile (disk (set sampleRuntime (JStr "k") (JStr "v") None 0
                     (lockIndexFile freshManager)).2) = None.
Proof.
  assert ("k" ∉ readonlyBlobs (disk (lockIndexFile freshManager))) as Hro
    by apply not_elem_of_empty.
  destruct (snapshot_failure_is_silent sampleRuntime (JStr "k") (JStr "v")
              None 0 (lockIndexFile freshManager) "k" "v"
              eq_refl eq_refl Hro eq_refl) as (Hok & _ & _ & Hfile).
  split; [exact Hro|]. split; [reflexivity|]. split; [exact Hok|].
  exact Hfile.
Defined.

(** The key [{toString: 1}] on an empty cache: [set] stores the entry
    and answers [false]; a [get] that finds the entry counts a hit, then
    a miss, and answers [null]; [delete] removes the entry and answers
    [false]. *)
Example unprintable_key_scenario :
  templateThrows unprintableKey = true /\
  let r := set sampleRuntime unprintableKey (JStr "v") None 0 freshManager in
  r.1 = false /\
  length (cacheIndex r.2) = 1%nat /\
  expectedHit sampleRuntime unprintableKey 1 r.2 = true /\
  (get sampleRuntime unprintableKey 1 r.2).1 = JNull /\
  counters (get sampleRuntime unprintableKey 1 r.2).2 = (1, 1) /\
  (delete sampleRuntime unprintableKey 2 r.2).1 = false /\
  cacheIndex (delete sampleRuntime unprintableKey 2 r.2).2 = [].
Proof. vm_compute. done. Qed.

(** ** Flags and lifetimes recorded by [set] *)

(** X17. The flags that [set] records are truthful: [isCompressed] is
    set exactly when compression is enabled and gzip produced bytes
    that differ from its input, [isEncrypted] exactly when encryption
    is enabled and the cipher produced bytes that differ from its
    input; with both flags clear the stored bytes are the payload. *)
Theorem encode_flags_truthful (rt : Runtime) (cfg : Config) (x : string) :
  let '(out, isCompressed, isEncrypted) := encode rt cfg x in
  (isCompressed = true <->
     compressionEnabled cfg = true /\
     exists z, gzip_base64 rt x = Some z /\ z <> x) /\
  (isEncrypted = true <->
     encryptionEnabled cfg = true /\
     exists y, cipher_hex rt (encryptionKey cfg) (compressData rt cfg x)
               = Some y /\ y <> compressData rt cfg x) /\
  (isCompressed = false -> isEncrypted = false -> out = x).
Proof.
  unfold encode. split_and!.
  - unfold compressData. destruct (compressionEnabled cfg); cbn.
    + destruct (gzip_base64 rt x) as [z|] eqn:Hg.
      * case_bool_decide as Heq; cbn; split; try done.
        -- intros (_ & z' & [= <-] & Hne). done.
        -- intros _. split; [done|]. by exists z.
      * rewrite bool_decide_true by done. cbn. split; [done|].
        by intros (_ & z' & ? & _).
    + rewrite bool_decide_true by done. cbn. split; [done|]. by intros [? _].
  - unfold encryptData. destruct (encryptionEnabled cfg); cbn.
    + destruct (cipher_hex rt (encryptionKey cfg) (compressData rt cfg x))
        as [y|] eqn:Hc.
      * case_bool_decide as Heq; cbn; split; try done.
        -- intros (_ & y' & [= <-] & Hne). done.
        -- intros _. split; [done|]. by exists y.
      * rewrite bool_decide_true by done. cbn. split; [done|].
        by intros (_ & y' & ? & _).
    + rewrite bool_decide_true by done. cbn. split; [done|]. by intros [? _].
  - intros Hc He. apply negb_false_iff, bool_decide_eq_true in Hc, He.
    by rewrite He, Hc.
Qed.

(** X18. Lifetimes: a [ttl] of 0 is taken as no [ttl] at all, so the
    entry lives [maxCacheAge]; a negative [ttl] gives an entry that is
    already expired when written, so the first [get] at or after the
    time of writing returns [null] and removes it. *)
Theorem ttl_zero_and_negative (rt : Runtime) (key data : jsval) (now : Z)
    (m : Manager) :
  set rt key data (Some 0) now m = set rt key data None now m /\
  forall ttl m1 ck now',
    ttl < 0 ->
    generateCacheKey rt key = Normal ck ->
    set rt key data (Some ttl) now m = (true, m1) ->
    now <= now' ->
    (get rt key now' m1).1 = JNull /\
    Map_get ck (cacheIndex (get rt key now' m1).2) = None /\
    blobs (disk (get rt key now' m1).2) !! ck = None.
Proof.
  split; [done|].
  intros ttl m1 ck now' Hneg Hk Hset Hlater.
  apply set_success in Hset
    as (ck' & pd & md & enc & Hk' & _ & Hro & _ & _ & _ & _ & Hexp
        & _ & Hi & _ & Hro' & _ & _ & Hp).
  assert (ck' = ck) as -> by congruence.
  unfold effectiveTtl in Hexp. rewrite decide_False in Hexp by lia.
  apply (get_expired rt key now' m1 ck md); try done.
  - rewrite Hi, Map_get_set. by rewrite decide_True.
  - lia.
  - by rewrite Hro'.
Qed.

Lemma ttl_zero_and_negative_witness :
  let m1 := (set sampleRuntime (JStr "k") (JStr "v") (Some (-1)) 10
               freshManager).2 in
  set sampleRuntime (JStr "k") (JStr "v") (Some (-1)) 10 freshManager
    = (true, m1) /\
  (get sampleRuntime (JStr "k") 10 m1).1 = JNull.
Proof.
  intros m1.
  assert (set sampleRuntime (JStr "k") (JStr "v") (Some (-1)) 10 freshManager
          = (true, m1)) as Hset by (vm_compute; reflexivity).
  assert (-1 < 0) as Hneg by lia.
  assert (10 <= 10) as Hle by lia.
  split; [exact Hset|].
  exact (proj1 (proj2 (ttl_zero_and_negative sampleRuntime (JStr "k")
                         (JStr "v") 10 freshManager)
                  (-1) m1 "k" 10 Hneg eq_refl Hset Hle)).
Defined.

(** ** Eviction and reads *)

Section Reads.

Lemma removeEntry_sameContent e c s ma mb :
  sameContent ma mb ->
  (removeEntry e (c, s, ma)).1 = (removeEntry e (c, s, mb)).1 /\
  sameContent (removeEntry e (c, s, ma)).2 (removeEntry e (c, s, mb)).2.
Proof.
  intros (Hcfg & Hi & Hb & Hro & Hts). destruct e as [k md].
  unfold removeEntry. rewrite Hb, Hro.
  destruct (blobs (disk mb) !! k); [case_decide|]; cbn [fst snd];
    unfold sameContent; cbn; by rewrite ?Hcfg, ?Hi, ?Hb, ?Hro, ?Hts.
Qed.

Lemma evictLoop_sameContent maxSize l : forall c s ma mb,
  sameContent ma mb ->
  (evictLoop maxSize l (c, s, ma)).1 = (evictLoop maxSize l (c, s, mb)).1 /\
  sameContent (evictLoop maxSize l (c, s, ma)).2
              (evictLoop maxSize l (c, s, mb)).2.
Proof.
  induction l as [|e l IH]; intros c s ma mb Hsame; [done|].
  cbn [evictLoop]. pose proof Hsame as (_ & _ & _ & _ & Hts). rewrite Hts.
  case_decide; [done|].
  destruct (removeEntry_sameContent e c s ma mb Hsame) as [H1 H2].
  destruct (removeEntry e (c, s, ma)) as [[ca sa] ma'].
  destruct (removeEntry e (c, s, mb)) as [[cb sb] mb'].
  cbn [fst snd] in *. injection H1 as -> ->. by apply IH.
Qed.

End Reads.

(** X19. Eviction goes by time of writing, not of reading: a [get]
    that hits changes neither what [cleanupOversized] removes next nor
    what it leaves. *)
Theorem eviction_ignores_reads (rt : Runtime) (key : jsval)
    (now now' : Z) (m : Manager) :
  expectedHit rt key now m = true ->
  let m' := (get rt key now m).2 in
  cacheIndex m' = cacheIndex m /\
  (cleanupOversized now' m').1 = (cleanupOversized now' m).1 /\
  cacheIndex (cleanupOversized now' m').2
    = cacheIndex (cleanupOversized now' m).2 /\
  blobs (disk (cleanupOversized now' m').2)
    = blobs (disk (cleanupOversized now' m).2).
Proof.
  intros Hhit. cbn zeta. rewrite (get_hit_state rt key now m Hhit).
  assert (sameContent (if templateThrows key then miss (hit m) else hit m) m)
    as Hsame by by destruct (templateThrows key).
  revert Hsame.
  generalize (if templateThrows key then miss (hit m) else hit m).
  intros mh Hsame.
  pose proof Hsame as (Hcfg & Hidx & Hblobs & _ & Hts).
  split; [done|].
  unfold cleanupOversized. rewrite Hts, Hcfg.
  case_decide; [done|]. rewrite Hidx.
  destruct (evictLoop_sameContent (maxCacheSize (config m))
              (sortByTimestamp (cacheIndex m)) 0 0 _ m Hsame)
    as [H1 (_ & Hi & Hb & _)].
  destruct (evictLoop _ _ (0, 0, mh)) as [[ca sa] ma].
  destruct (evictLoop _ _ (0, 0, m)) as [[cb sb] mb].
  cbn [fst snd] in *. injection H1 as -> ->.
  case_decide; cbn [fst snd]; [|done].
  by rewrite !saveCacheIndex_index, !saveCacheIndex_blobs.
Qed.

Lemma eviction_ignores_reads_witness :
  expectedHit sampleRuntime (JStr "a") 6 fiveManager = true /\
  (cleanupOversized 7 (get sampleRuntime (JStr "a") 6 fiveManager).2).1
    = (cleanupOversized 7 fiveManager).1.
Proof.
  assert (expectedHit sampleRuntime (JStr "a") 6 fiveManager = true) as Hhit
    by (vm_compute; reflexivity).
  split; [exact Hhit|].
  exact (proj1 (proj2
    (eviction_ignores_reads sampleRuntime (JStr "a") 6 7 fiveManager Hhit))).
Defined.

(** ** The command line *)

(** X20. The command line runs one action, the first of [--cleanup],
    [--stats], [--clear] that is among the arguments: the cache is
    cleared exactly when [--clear] is given and neither [--cleanup] nor
    [--stats] is, and with [--stats] alone, or with no known flag, the
    files are left as the constructor found them. *)
Theorem main_runs_first_flag (envKey : option string) (d : Disk)
    (args : list string) (now : Z) :
  ((exists n, (main envKey d args now).1 = RanClear n) <->
     "--clear" ∈ args /\ ("--cleanup" ∉ args) /\ ("--stats" ∉ args)) /\
  ("--cleanup" ∈ args ->
     main envKey d args now = main envKey d ["--cleanup"] now) /\
  ("--cleanup" ∉ args ->
     "--stats" ∈ args \/ "--clear" ∉ args ->
     (main envKey d args now).2 = newManager (defaultConfig envKey) d).
Proof.
  unfold main. split_and!.
  - destruct (decide ("--cleanup" ∈ args)) as [Hc|Hc].
    { destruct (cleanup now _) as [r m]. cbn.
      split; [by intros [? ?]|]. by intros (_ & ? & _). }
    destruct (decide ("--stats" ∈ args)) as [Hs|Hs].
    { cbn. split; [by intros [? ?]|]. by intros (_ & _ & ?). }
    destruct (decide ("--clear" ∈ args)) as [Hx|Hx].
    { destruct (clear now _) as [n m]. cbn. split; [done|].
      intros _. by exists n. }
    cbn. split; [by intros [? ?]|]. by intros (? & _).
  - intros Hc. rewrite decide_True by done.
    rewrite decide_True; [done|]. by apply list_elem_of_singleton.
  - intros Hc Hor. rewrite decide_False by done.
    destruct (decide ("--stats" ∈ args)) as [Hs|Hs]; [done|].
    destruct Hor as [?|Hx]; [done|]. by rewrite decide_False.
Qed.

(** ** Reading back and untracked files *)

(** X21. What [set] stored is what [get] returns: after a successful
    [set], with any [ttl] option, every [get] of the key up to and
    including the expiry time returns the value and counts a hit, and
    [has] answers [true]; neither changes index or files. *)
Theorem get_returns_what_set_stored (rt : Runtime) (key v : jsval)
    (ttlOption : option Z) (now now' : Z) (m m1 : Manager) :
  gunzip_inverts_gzip rt ->
  decipher_inverts_cipher rt ->
  jsonRoundTrips rt v ->
  set rt key v ttlOption now m = (true, m1) ->
  now' <= now + effectiveTtl (config m) ttlOption ->
  get rt key now' m1 = (v, hit m1) /\
  has rt key now' m1 = (Normal true, m1).
Proof.
  intros Hz Hc Hjson Hset Hlive. split.
  - apply (get_after_set rt key v ttlOption now now' m m1); try done; lia.
  - apply set_success in Hset
      as (ck & pd & md & enc & Hk & _ & _ & _ & _ & _ & _ & Hexp & _ & Hi & _).
    unfold has. rewrite Hk, Hi, Map_get_set. rewrite decide_True by done.
    rewrite decide_False; [done|]. rewrite Hexp. lia.
Qed.

Lemma get_returns_what_set_stored_witness :
  set sampleRuntime (JStr "k") (JStr "v") None 0 freshManager
    = (true, writtenManager) /\
  604800000 <= 0 + effectiveTtl (config freshManager) None /\
  get sampleRuntime (JStr "k") 604800000 writtenManager
    = (JStr "v", hit writtenManager).
Proof.
  assert (set sampleRuntime (JStr "k") (JStr "v") None 0 freshManager
          = (true, writtenManager)) as Hset by (vm_compute; reflexivity).
  assert (604800000 <= 0 + effectiveTtl (config freshManager) None) as Hlive
    by (vm_compute; discriminate).
  split; [exact Hset|]. split; [exact Hlive|].
  exact (proj1 (get_returns_what_set_stored sampleRuntime (JStr "k")
                  (JStr "v") None 0 604800000 freshManager writtenManager
                  sampleRuntime_gunzip sampleRuntime_decipher I Hset Hlive)).
Defined.

Section Untracked.

Lemma removeEntry_other_blob k e acc :
  e.1 <> k ->
  blobs (disk (removeEntry e acc).2) !! k = blobs (disk acc.2) !! k.
Proof.
  destruct acc as [[c s] m], e as [k' md]. cbn [fst snd]. intros Hne.
  unfold removeEntry. destruct (blobs (disk m) !! k'); [|done].
  case_decide; [done|]. cbn. by rewrite lookup_delete_ne.
Qed.

Lemma evictLoop_other_blob k maxSize l : forall acc,
  k ∉ l.*1 ->
  blobs (disk (evictLoop maxSize l acc).2) !! k = blobs (disk acc.2) !! k.
Proof.
  induction l as [|e l IH]; intros [[c s] m] Hk; [done|].
  rewrite fmap_cons in Hk. apply not_elem_of_cons in Hk as [Hne Hk].
  cbn [evictLoop]. case_decide; [done|].
  rewrite IH by done. by apply removeEntry_other_blob.
Qed.

Lemma expireLoop_other_blob k now (l : Index) : forall acc,
  k ∉ l.*1 ->
  blobs (disk (foldl (fun acc e =>
           if decide (now > expiresAt e.2) then removeEntry e acc else acc)
        acc l).2) !! k = blobs (disk acc.2) !! k.
Proof.
  induction l as [|e l IH]; intros acc Hk; [done|].
  rewrite fmap_cons in Hk. apply not_elem_of_cons in Hk as [Hne Hk].
  cbn [foldl]. rewrite IH by done.
  case_decide; [by apply removeEntry_other_blob|done].
Qed.

Lemma unlink_other_blob k (l : Index) : forall acc,
  k ∉ l.*1 ->
  blobs (foldl unlinkEntry acc l).2 !! k = blobs acc.2 !! k.
Proof.
  induction l as [|e l IH]; intros [c d] Hk; [done|].
  rewrite fmap_cons in Hk. apply not_elem_of_cons in Hk as [Hne Hk].
  cbn [foldl]. rewrite IH by done. unfold unlinkEntry. cbn [snd].
  destruct (blobs d !! e.1); [|done]. case_decide; [done|].
  cbn. by rewrite lookup_delete_ne.
Qed.

Lemma cleanupExpired_untracked k now m :
  Map_get k (cacheIndex m) = None ->
  blobs (disk (cleanupExpired now m).2) !! k = blobs (disk m) !! k /\
  Map_get k (cacheIndex (cleanupExpired now m).2) = None.
Proof.
  intros Hk.
  assert (k ∉ (cacheIndex m).*1) as Hnot.
  { intros Hin%Map_get_is_Some. rewrite Hk in Hin. by destruct Hin. }
  pose proof (expireLoop_other_blob k now (cacheIndex m) (0, 0, m) Hnot) as Hb.
  unfold cleanupExpired.
  match goal with |- context [foldl ?f ?a ?l] =>
    assert (Map_get k (cacheIndex (foldl f a l).2) = None) as Hi;
    [|destruct (foldl f a l) as [[c s] m1]] end.
  { apply (foldl_invariant
      (fun acc => Map_get k (cacheIndex acc.2) = None)); [done|].
    intros [[c s] m0] [k' md] Hacc. case_decide; [|done].
    unfold removeEntry. cbn [snd] in *.
    destruct (blobs (disk m0) !! k'); [case_decide; [done|]|];
      cbn [snd cacheIndex with_index with_disk];
      rewrite Map_get_delete; by case_decide. }
  cbn [snd] in *. case_decide; cbn [snd]; [|done].
  unfold set_lastCleanup. cbn [disk cacheIndex with_stats].
  by rewrite saveCacheIndex_blobs, saveCacheIndex_index.
Qed.

Lemma cleanupOversized_untracked k now m :
  Map_get k (cacheIndex m) = None ->
  blobs (disk (cleanupOversized now m).2) !! k = blobs (disk m) !! k.
Proof.
  intros Hk.
  assert (k ∉ (sortByTimestamp (cacheIndex m)).*1) as Hnot.
  { rewrite sortByTimestamp_perm. intros Hin%Map_get_is_Some.
    rewrite Hk in Hin. by destruct Hin. }
  pose proof (evictLoop_other_blob k (maxCacheSize (config m))
                (sortByTimestamp (cacheIndex m)) (0, 0, m) Hnot) as Hb.
  unfold cleanupOversized. case_decide; [done|].
  destruct (evictLoop _ _ _) as [[c s] m1]. cbn [snd] in *.
  case_decide; cbn [snd]; [|done]. by rewrite saveCacheIndex_blobs.
Qed.

End Untracked.

(** X22. A blob file whose cache key is not in the index is never
    removed by the sweeps or by [clear]: they unlink only the blobs of
    index entries.  In particular, when the snapshot is missing the
    cache starts with an empty index and [clear] leaves every blob file
    in place. *)
Theorem untracked_blobs_are_never_removed (now : Z) (m : Manager)
    (k : string) :
  Map_get k (cacheIndex m) = None ->
  blobs (disk (cleanupExpired now m).2) !! k = blobs (disk m) !! k /\
  blobs (disk (cleanupOversized now m).2) !! k = blobs (disk m) !! k /\
  blobs (disk (cleanup now m).2) !! k = blobs (disk m) !! k /\
  blobs (disk (clear now m).2) !! k = blobs (disk m) !! k.
Proof.
  intros Hk.
  destruct (cleanupExpired_untracked k now m Hk) as [He Hk1].
  assert (k ∉ (cacheIndex m).*1) as Hnot.
  { intros Hin%Map_get_is_Some. rewrite Hk in Hin. by destruct Hin. }
  split_and!; [done|by apply cleanupOversized_untracked| |].
  - unfold cleanup.
    destruct (cleanupExpired now m) as [[c1 s1] m1]. cbn [snd] in *.
    pose proof (cleanupOversized_untracked k now m1 Hk1) as Ho.
    destruct (cleanupOversized now m1) as [[c2 s2] m2]. cbn [snd] in *.
    congruence.
  - pose proof (unlink_other_blob k (cacheIndex m) (0, disk m) Hnot) as Hb.
    unfold clear.
    destruct (foldl unlinkEntry (0, disk m) (cacheIndex m)) as [c d].
    cbn [snd] in *. by rewrite saveCacheIndex_blobs.
Qed.

Lemma untracked_blobs_are_never_removed_witness :
  let m := newManager (sampleConfig true false 100)
             (with_indexFile (disk writtenManager) None) in
  Map_get "k" (cacheIndex m) = None /\
  is_Some (blobs (disk (clear 1 m).2) !! "k").
Proof.
  intros m.
  assert (Map_get "k" (cacheIndex m) = None) as Hk by reflexivity.
  split; [exact Hk|].
  rewrite (proj2 (proj2 (proj2
    (untracked_blobs_are_never_removed 1 m "k" Hk)))).
  vm_compute. by eexists.
Defined.

End OfflineCacheManager.
